(** * BPPS instance generator: a shallow embedding of
      [src/generator/bpps_instance_generator.py] and the properties of its
      rejection-sampling builder, its file encoder and its sweep driver. *)

From Stdlib Require Import ZArith Lia Ascii.
From Stdlib Require Import Floats.SpecFloat.
From stdpp Require Import base numbers list list_numbers strings gmap pretty.

Local Open Scope Z_scope.

(** ** Python values the generator computes with *)

(** The exceptions the modelled code can raise. *)
Inductive exn := ValueError | OverflowError | ZeroDivisionError | KeyError.

(** Python [float] is IEEE binary64; the operations below are those of the
    Standard Library's executable specification of IEEE arithmetic. *)
Module Float64.
Definition prec : Z := 53.
Definition emax : Z := 1024.
Abbreviation float := spec_float.

(** The integer [z] as an unrounded mantissa with exponent 0. *)
Definition exact (z : Z) : float :=
  match z with
  | Z0 => S754_zero false
  | Zpos p => S754_finite false p 0
  | Zneg p => S754_finite true p 0
  end.

(** [float(z)]: round to nearest even, [OverflowError] beyond the range. *)
Definition of_int (z : Z) : exn + float :=
  match binary_normalize prec emax z 0 false with
  | S754_infinity _ => inl OverflowError
  | x => inr x
  end.

Definition mul : float → float → float := SFmul prec emax.

(** [a / b] on integers: the correctly rounded quotient. *)
Definition int_truediv (a b : Z) : exn + float :=
  if decide (b = 0) then inl ZeroDivisionError
  else match SFdiv prec emax (exact a) (exact b) with
       | S754_infinity _ => inl OverflowError
       | x => inr x
       end.

(** [math.floor] and [math.ceil] of a float. *)
Definition floor (x : float) : exn + Z :=
  match x with
  | S754_zero _ => inr 0
  | S754_infinity _ => inl OverflowError
  | S754_nan => inl ValueError
  | S754_finite s m e =>
      inr (if decide (0 ≤ e) then cond_Zopp s (Zpos m) * 2 ^ e
           else cond_Zopp s (Zpos m) `div` 2 ^ (- e))
  end.

Definition ceil (x : float) : exn + Z :=
  match x with
  | S754_zero _ => inr 0
  | S754_infinity _ => inl OverflowError
  | S754_nan => inl ValueError
  | S754_finite s m e =>
      inr (if decide (0 ≤ e) then cond_Zopp s (Zpos m) * 2 ^ e
           else - (cond_Zopp (negb s) (Zpos m) `div` 2 ^ (- e)))
  end.

(** The float a decimal literal [num / 10^digits] denotes (the nearest
    binary64 number to that rational). *)
Definition literal (num : Z) (digits : Z) : float :=
  SFdiv prec emax (exact num) (exact (10 ^ digits)).
End Float64.
Import Float64.

(** [d * v] with [d : int] and [v : float]: [d] is converted first. *)
Definition int_mul_float (d : Z) (v : float) : exn + float :=
  match of_int d with
  | inl e => inl e
  | inr x => inr (mul x v)
  end.

(** [floor(d * v)] and [ceil(d * v)]. *)
Definition floor_scaled (d : Z) (v : float) : exn + Z :=
  match int_mul_float d v with inl e => inl e | inr x => floor x end.
Definition ceil_scaled (d : Z) (v : float) : exn + Z :=
  match int_mul_float d v with inl e => inl e | inr x => ceil x end.

(** [range(n)]; empty when [n <= 0]. *)
Definition range (n : Z) : list Z := seqZ 0 n.

(** [min(l)] of a list of integers; [ValueError] on the empty list. *)
Definition py_min (l : list Z) : exn + Z :=
  match l with
  | [] => inl ValueError
  | x :: l' => inr (foldl Z.min x l')
  end.

Definition TAB : string := String "009"%char EmptyString.
Definition NL : string := String "010"%char EmptyString.

(** ** Dictionaries in insertion order *)

(** A Python [dict] with integer keys: an association list with unique keys
    that keeps the order in which the keys were first inserted. *)
Section dict.
Context {V : Type}.
Definition dict := list (Z * V).

Fixpoint dict_get (dc : dict) (k : Z) : option V :=
  match dc with
  | [] => None
  | (k', v) :: dc' => if decide (k' = k) then Some v else dict_get dc' k
  end.

(** [dc[k] = v]: in place for a known key, at the end for a new one. *)
Fixpoint dict_set (dc : dict) (k : Z) (v : V) : dict :=
  match dc with
  | [] => [(k, v)]
  | (k', v') :: dc' =>
      if decide (k' = k) then (k', v) :: dc' else (k', v') :: dict_set dc' k v
  end.

Definition dict_keys (dc : dict) : list Z := dc.*1.
Definition dict_values (dc : dict) : list V := dc.*2.

(** [{k: f(k) for k in ks}] for a pure [f]. *)
Definition dict_comp (f : Z → V) (ks : list Z) : dict :=
  foldl (λ dc k, dict_set dc k (f k)) [] ks.
End dict.
Arguments dict : clear implicits.

(** ** The random source and the world the program runs in *)

(** Python's [random] module, seen through the two calls the generator
    makes.  [rng_randint a b] is only called with [a <= b] (the empty range
    raises before the generator is consulted) and answers within the range. *)
Class RandomSource := {
  rng_state : Type;
  rng_seed : Z → rng_state;
  rng_randint : Z → Z → rng_state → Z * rng_state;
  rng_randint_range a b s : a ≤ b → a ≤ (rng_randint a b s).1 ≤ b
}.

(** The calls made to the random source, in order. *)
Inductive event :=
  | EvSeed (s : Z)
  | EvRandint (a b v : Z).

Definition seeds_of (t : list event) : list Z :=
  omap (λ ev, match ev with EvSeed s => Some s | _ => None end) t.
Definition draws_of (t : list event) : list (Z * Z) :=
  omap (λ ev, match ev with EvRandint a b _ => Some (a, b) | _ => None end) t.

Section generator.
Context {G : RandomSource}.

(** The global generator state, the history of calls made to it, and the
    files on disk, keyed by directory and file name. *)
Record world := World {
  rng : rng_state;
  trace : list event;
  files : gmap (string * string) string
}.

(** Computations that read and change the world and may raise; what was
    done before an exception stays done. *)
Definition M (A : Type) : Type := world → (exn + A) * world.

#[export] Instance M_ret : MRet M := λ A a σ, (inr a, σ).
#[export] Instance M_bind : MBind M := λ A B k c σ,
  match c σ with
  | (inr a, σ') => k a σ'
  | (inl e, σ') => (inl e, σ')
  end.

Definition raise {A} (e : exn) : M A := λ σ, (inl e, σ).
Definition lift {A} (r : exn + A) : M A := λ σ, (r, σ).

Fixpoint foldM {A B} (f : B → A → M B) (b : B) (l : list A) : M B :=
  match l with
  | [] => mret b
  | a :: l' => b' ← f b a; foldM f b' l'
  end.

(** [random.seed(s)] *)
Definition random_seed (s : Z) : M unit := λ σ,
  (inr (), {| rng := rng_seed s; trace := trace σ ++ [EvSeed s];
              files := files σ |}).

(** [random.randint(a, b)] *)
Definition randint (a b : Z) : M Z := λ σ,
  if decide (b < a) then (inl ValueError, σ)
  else let '(v, s') := rng_randint a b (rng σ) in
       (inr v, {| rng := s'; trace := trace σ ++ [EvRandint a b v];
                  files := files σ |}).

(** [open(path, 'w')] truncates; [file.write(s)] appends. *)
Definition file_open (path : string * string) : M unit := λ σ,
  (inr (), {| rng := rng σ; trace := trace σ;
              files := <[path := EmptyString]> (files σ) |}).
Definition file_write (path : string * string) (s : string) : M unit := λ σ,
  (inr (), {| rng := rng σ; trace := trace σ;
              files := <[path := default EmptyString (files σ !! path) +:+ s]>
                         (files σ) |}).

(** [dc[k]] as an expression: [KeyError] for a missing key. *)
Definition dict_getM {V} (dc : dict V) (k : Z) : M V :=
  match dict_get dc k with
  | Some v => mret v
  | None => raise KeyError
  end.

(** [{k: e for k in ks}] where [e] may draw. *)
Definition dict_compM {V} (f : Z → M V) (ks : list Z) : M (dict V) :=
  foldM (λ dc k, v ← f k; mret (dict_set dc k v)) [] ks.
(** ** The configuration (class [InstanceConfig]) *)

Record InstanceConfig := {
  capacities : list Z;
  num_items : list Z;
  num_classes : list Z;
  item_weight_ranges : list (float * float);
  setup_weight_ranges : list (float * float);
  setup_cost_flags : list Z;
  seeds : list Z;
  min_items_per_class : Z;
  output_directory : string
}.

(** ** [_generate_filename] *)

Definition _generate_filename (d n m w_min w_max s_min s_max f seed : Z)
    : string :=
  "bpps_d" +:+ pretty d +:+ "n" +:+ pretty n +:+ "m" +:+ pretty m
  +:+ "w" +:+ pretty w_min +:+ "_" +:+ pretty w_max
  +:+ "s" +:+ pretty s_min +:+ "_" +:+ pretty s_max
  +:+ "f" +:+ pretty f +:+ "_seed" +:+ pretty seed +:+ ".txt".

(** ** [_write_instance_file] *)

Definition header_line (n m d bin_cost : Z) : string :=
  pretty n +:+ TAB +:+ pretty m +:+ TAB +:+ pretty d +:+ TAB
  +:+ pretty bin_cost +:+ NL.
Definition class_line (setup_cost setup_weight count : Z) : string :=
  pretty (- setup_cost) +:+ TAB +:+ pretty setup_weight +:+ TAB
  +:+ pretty count +:+ NL.
Definition weight_line (w : Z) : string := pretty w +:+ NL.

Definition _write_instance_file (cfg : InstanceConfig)
    (d n m w_min w_max s_min s_max f seed bin_cost : Z)
    (classes : dict (list Z)) (setup_costs setups : dict Z)
    (items : list Z) : M unit :=
  let filename := _generate_filename d n m w_min w_max s_min s_max f seed in
  let filepath := (output_directory cfg, filename) in
  file_open filepath;;
  file_write filepath (header_line n m d bin_cost);;
  foldM (λ _ cl,
    ws ← dict_getM classes cl;
    if decide (ws = []) then mret ()
    else
      sc ← dict_getM setup_costs cl;
      sw ← dict_getM setups cl;
      file_write filepath (class_line sc sw (Z.of_nat (length ws))))
    () (range m);;
  foldM (λ _ item_weight, file_write filepath (weight_line item_weight))
    () items.

(** ** [_generate_single_instance] *)

(** What one pass of the loop body has drawn when it reaches the
    acceptance test. *)
Record drawn := Drawn {
  bin_cost : Z;
  classes : dict (list Z);
  setup_costs : dict Z;
  setups : dict Z;
  items : list Z
}.

(** The loop body from [random.seed(seed + k)] down to the setup weights. *)
Definition draw_instance (n m w_min w_max s_min s_max f : Z) (sk : Z)
    : M drawn :=
  random_seed sk;;
  let classes0 : dict (list Z) := dict_comp (λ _, []) (range m) in
  let setups0 : dict Z := dict_comp (λ _, 0) (range m) in
  '(setup_costs, bin_cost) ←
    (if decide (f = 0) then mret (dict_comp (λ _, 0) (range m), 1)
     else sc ← dict_compM (λ _, randint 1 5) (range m); mret (sc, 10));
  classes ← foldM (λ (classes : dict (list Z)) _,
      class_id ← randint 0 (m - 1);
      item_weight ← randint w_min w_max;
      ws ← dict_getM classes class_id;
      mret (dict_set classes class_id (ws ++ [item_weight])))
    classes0 (range n);
  items ← foldM (λ items cl,
      ws ← dict_getM classes cl; mret (items ++ ws))
    [] (dict_keys classes);
  setups ← foldM (λ (setups : dict Z) cl,
      setup_weight ← randint s_min s_max;
      mret (dict_set setups cl setup_weight))
    setups0 (dict_keys classes);
  mret (Drawn bin_cost classes setup_costs setups items).

(** [min([len(classes[i]) for i in range(m)])] *)
Definition min_class_size (m : Z) (classes : dict (list Z)) : M Z :=
  sizes ← foldM (λ sizes i,
      ws ← dict_getM classes i; mret (sizes ++ [Z.of_nat (length ws)]))
    [] (range m);
  lift (py_min sizes).

Definition max_attempts : Z := 1000.

(** The [while not found and k < max_attempts] loop, entered with
    [found = False]; [remaining] is [max_attempts - k].  The loop ends with
    [found = True] right after the pass that wrote the file. *)
Fixpoint attempt_loop (cfg : InstanceConfig)
    (d n m w_min w_max s_min s_max f seed : Z)
    (remaining : nat) (k : Z) : M bool :=
  match remaining with
  | O => mret false
  | S remaining' =>
      dr ← draw_instance n m w_min w_max s_min s_max f (seed + k);
      smallest ← min_class_size m (classes dr);
      if decide (min_items_per_class cfg ≤ smallest) then
        _write_instance_file cfg d n m w_min w_max s_min s_max f seed
          (bin_cost dr) (classes dr) (setup_costs dr) (setups dr)
          (items dr);;
        mret true
      else attempt_loop cfg d n m w_min w_max s_min s_max f seed
             remaining' (k + 1)
  end.

(** The four bounds, computed in the order of the source. *)
Definition derive_bounds (d : Z) (v1 v2 s1 s2 : float)
    : exn + (Z * Z * Z * Z) :=
  match floor_scaled d v1 with inl e => inl e | inr w_min =>
  match ceil_scaled d v2 with inl e => inl e | inr w_max =>
  match floor_scaled d s1 with inl e => inl e | inr s_min =>
  match ceil_scaled d s2 with inl e => inl e | inr s_max =>
    inr (w_min, w_max, s_min, s_max)
  end end end end.

Definition _generate_single_instance (cfg : InstanceConfig)
    (d n m : Z) (v1 v2 s1 s2 : float) (f seed : Z) : M bool :=
  '(w_min, w_max, s_min, s_max) ← lift (derive_bounds d v1 v2 s1 s2);
  attempt_loop cfg d n m w_min w_max s_min s_max f seed
    (Z.to_nat max_attempts) 0.

(** ** [generate_instances]

    The progress lines printed to the console are left out, as are the
    creation of the output directory and storage failures: a write always
    succeeds. *)

(** One entry of [failed_instances]. *)
Record failed_tuple := Failed {
  ft_d : Z; ft_n : Z; ft_m : Z;
  ft_v1 : float; ft_v2 : float; ft_s1 : float; ft_s2 : float;
  ft_f : Z; ft_seed : Z
}.

(** The three local accumulators of the sweep. *)
Record counters := Counters {
  total_instances : Z;
  successful_instances : Z;
  failed_instances : list failed_tuple
}.

(** The body of the innermost loop. *)
Definition sweep_body (cfg : InstanceConfig) (acc : counters)
    (t : failed_tuple) : M counters :=
  let total := total_instances acc + 1 in
  success ← _generate_single_instance cfg (ft_d t) (ft_n t) (ft_m t)
              (ft_v1 t) (ft_v2 t) (ft_s1 t) (ft_s2 t) (ft_f t) (ft_seed t);
  if (success : bool) then
    (* the file name is recomputed for the progress line *)
    lift (derive_bounds (ft_d t) (ft_v1 t) (ft_v2 t) (ft_s1 t) (ft_s2 t));;
    mret (Counters total (successful_instances acc + 1)
            (failed_instances acc))
  else
    mret (Counters total (successful_instances acc)
            (failed_instances acc ++ [t])).

(** The seven nested [for] loops. *)
Definition sweep (cfg : InstanceConfig) (acc : counters) : M counters :=
  foldM (λ acc m,
   foldM (λ acc n,
    foldM (λ acc d,
     foldM (λ acc (vr : float * float), let '(v1, v2) := vr in
      foldM (λ acc (sr : float * float), let '(s1, s2) := sr in
       foldM (λ acc f,
        foldM (λ acc seed,
          sweep_body cfg acc (Failed d n m v1 v2 s1 s2 f seed))
        acc (seeds cfg))
       acc (setup_cost_flags cfg))
      acc (setup_weight_ranges cfg))
     acc (item_weight_ranges cfg))
    acc (capacities cfg))
   acc (num_items cfg))
  acc (num_classes cfg).

(** A Python number that is an [int] or a [float]. *)
Inductive number := PyInt (z : Z) | PyFloat (x : float).

(** The returned [statistics] dictionary. *)
Record statistics := Statistics {
  total_attempted : Z;
  successful : Z;
  failed : Z;
  success_rate : number;
  stat_failed_instances : list failed_tuple
}.

Definition make_statistics (acc : counters) : exn + statistics :=
  let rate :=
    if decide (0 < total_instances acc) then
      match int_truediv (successful_instances acc) (total_instances acc) with
      | inl e => inl e
      | inr q =>
          match of_int 100 with
          | inl e => inl e
          | inr h => inr (PyFloat (mul q h))
          end
      end
    else inr (PyInt 0) in
  match rate with
  | inl e => inl e
  | inr r =>
      inr (Statistics (total_instances acc) (successful_instances acc)
             (Z.of_nat (length (failed_instances acc))) r
             (failed_instances acc))
  end.

Definition generate_instances (cfg : InstanceConfig) : M statistics :=
  acc ← sweep cfg (Counters 0 0 []);
  lift (make_statistics acc).

(** [create_default_config] *)
Definition create_default_config : InstanceConfig := {|
  capacities := [200; 1000; 10000];
  num_items := [25; 50; 75; 100; 200];
  num_classes := [5; 10];
  item_weight_ranges := [(literal 5 2, literal 15 2); (literal 15 2, literal 30 2)];
  setup_weight_ranges := [(literal 1 2, literal 10 2); (literal 10 2, literal 20 2)];
  setup_cost_flags := [0; 1];
  seeds := [0; 1];
  min_items_per_class := 2;
  output_directory := "./generated_instances"
|}.
End generator.

(** ** A concrete random source

    A linear congruential generator, used to run the model on examples. *)
Definition lcg_next (s : Z) : Z := (s * 1103515245 + 12345) `mod` 2147483648.
Definition lcg_randint (a b : Z) (s : Z) : Z * Z :=
  let s' := lcg_next s in (a + (s' `div` 65536) `mod` (b - a + 1), s').

Definition LCG : RandomSource.
Proof.
  refine {| rng_state := Z; rng_seed := λ s, s; rng_randint := lcg_randint |}.
  intros a b s Hab. unfold lcg_randint. simpl.
  pose proof (Z.mod_pos_bound (lcg_next s `div` 65536) (b - a + 1)). lia.
Defined.

(** * Notions used to state the properties *)

(** The weights assigned to class [i] among the drawn (class, weight)
    pairs, in the order they were drawn. *)
Definition select (i : Z) (asg : list (Z * Z)) : list Z :=
  (filter (λ p, p.1 = i) asg).*2.

(** The two calls made for each item. *)
Definition item_events (m w_min w_max : Z) (asg : list (Z * Z)) : list event :=
  asg ≫= λ p, [EvRandint 0 (m - 1) p.1; EvRandint w_min w_max p.2].

(** What a completed pass has drawn: [costs], [asg] and [sws] are the
    values the random source answered, in the order it was asked. *)
Record drawn_from {G : RandomSource} (n m w_min w_max s_min s_max f sk : Z)
    (costs : list Z) (asg : list (Z * Z)) (sws : list Z)
    (σ σ' : world) (dr : drawn) : Prop := {
  df_files : files σ' = files σ;
  df_trace : trace σ' = trace σ ++ EvSeed sk ::
               (EvRandint 1 5 <$> costs) ++ item_events m w_min w_max asg
               ++ (EvRandint s_min s_max <$> sws);
  df_costs_len : length costs = if decide (f = 0) then 0%nat else Z.to_nat m;
  df_asg_len : length asg = Z.to_nat n;
  df_sws_len : length sws = Z.to_nat m;
  df_asg_range : Forall (λ p, 0 ≤ p.1 ≤ m - 1 ∧ w_min ≤ p.2 ≤ w_max) asg;
  df_bin_cost : bin_cost dr = if decide (f = 0) then 1 else 10;
  df_classes_keys : dict_keys (classes dr) = range m;
  df_classes : ∀ i, i ∈ range m → dict_get (classes dr) i = Some (select i asg);
  df_costs_keys : dict_keys (setup_costs dr) = range m;
  df_costs : ∀ i, i ∈ range m → ∃ v, dict_get (setup_costs dr) i = Some v ∧
               if decide (f = 0) then v = 0 else 1 ≤ v ≤ 5;
  df_setups_keys : dict_keys (setups dr) = range m;
  df_setups : ∀ i, i ∈ range m → ∃ v, dict_get (setups dr) i = Some v ∧
                s_min ≤ v ≤ s_max;
  df_items : items dr = concat ((λ i, select i asg) <$> range m)
}.

(** The concatenation of a list of lines. *)
Definition concat_lines (l : list string) : string :=
  foldr String.app EmptyString l.

(** The rows of the class section, by ascending class index: setup cost,
    setup weight and the class's weights. *)
Definition class_table (m : Z) (cls : dict (list Z)) (sc st : dict Z)
    : list (Z * Z * list Z) :=
  (λ i, (default 0 (dict_get sc i), default 0 (dict_get st i),
         default [] (dict_get cls i))) <$> range m.

(** The numbers printed on the class lines: one triple per non-empty
    class, the setup cost negated. *)
Definition class_records (table : list (Z * Z * list Z)) : list (Z * Z * Z) :=
  (λ r, (- r.1.1, r.1.2, Z.of_nat (length r.2)))
    <$> filter (λ r, r.2 ≠ []) table.

(** One class line, and the class and weight sections of the file. *)
Definition record_line (r : Z * Z * Z) : string :=
  pretty r.1.1 +:+ TAB +:+ pretty r.1.2 +:+ TAB +:+ pretty r.2 +:+ NL.

Definition class_lines (table : list (Z * Z * list Z)) : list string :=
  record_line <$> class_records table.

Definition weight_lines (table : list (Z * Z * list Z)) : list string :=
  (λ w, pretty w +:+ NL) <$> concat (table.*2).

(** The file format as the documentation words it: the header, one line per
    non-empty class in ascending index order, then the weights class by
    class. *)
Definition spec_lines (n m d bin_cost : Z) (table : list (Z * Z * list Z))
    : list string :=
  (pretty n +:+ TAB +:+ pretty m +:+ TAB +:+ pretty d +:+ TAB
     +:+ pretty bin_cost +:+ NL)
  :: class_lines table ++ weight_lines table.

Definition spec_file (n m d bin_cost : Z) (table : list (Z * Z * list Z))
    : string :=
  concat_lines (spec_lines n m d bin_cost table).

(** The builder accepted [dr], drawn in one of its passes from the pairs
    [asg], and the file it wrote holds exactly [dr]. *)
Record accepted_instance {G : RandomSource} (cfg : InstanceConfig)
    (d n m w_min w_max s_min s_max f seed : Z)
    (σ' : world) (dr : drawn) (asg : list (Z * Z)) : Prop := {
  acc_pass : ∃ k costs sws σa σb, 0 ≤ k < max_attempts ∧
    drawn_from n m w_min w_max s_min s_max f (seed + k) costs asg sws σa σb dr;
  acc_classes : 0 < m;
  acc_min : ∀ i, i ∈ range m →
    min_items_per_class cfg ≤ Z.of_nat (length (select i asg));
  acc_file :
    files σ' !! (output_directory cfg,
                 _generate_filename d n m w_min w_max s_min s_max f seed)
    = Some (spec_file n m d (bin_cost dr)
              (class_table m (classes dr) (setup_costs dr) (setups dr)))
}.

(** A run on the documentation's example parameters. *)
Definition example_cfg : InstanceConfig := {|
  capacities := [200]; num_items := [10]; num_classes := [5];
  item_weight_ranges := [(literal 5 2, literal 15 2)];
  setup_weight_ranges := [(literal 1 2, literal 10 2)];
  setup_cost_flags := [0]; seeds := [0];
  min_items_per_class := 2; output_directory := "generated_instances" |}.

(** A fresh world: no history, no files. *)
Definition start_world : @world LCG := @World LCG 0 [] ∅.

(** The builder run of the example, with either setup-cost flag. *)
Abbreviation example_run f :=
  (_generate_single_instance (G:=LCG) example_cfg 200 10 5
     (literal 5 2) (literal 15 2) (literal 1 2) (literal 10 2) f 0 start_world).

(** The ranges one pass asks for, in the order of the source: the setup
    costs first (when the flag is set), then class and weight of each item,
    then the setup weights. *)
Definition code_draw_order (n m w_min w_max s_min s_max f : Z)
    : list (Z * Z) :=
  (if decide (f = 0) then [] else replicate (Z.to_nat m) (1, 5))
  ++ mjoin (replicate (Z.to_nat n) [(0, m - 1); (w_min, w_max)])
  ++ replicate (Z.to_nat m) (s_min, s_max).

(** The order the documentation states: the setup costs last. *)
Definition spec_draw_order (n m w_min w_max s_min s_max f : Z)
    : list (Z * Z) :=
  mjoin (replicate (Z.to_nat n) [(0, m - 1); (w_min, w_max)])
  ++ replicate (Z.to_nat m) (s_min, s_max)
  ++ (if decide (f = 1) then replicate (Z.to_nat m) (1, 5) else []).

(** The history of successive passes, pass [k] reseeding with [seed + k]. *)
Fixpoint attempts_trace (seed k : Z) (trs : list (list event)) : list event :=
  match trs with
  | [] => []
  | tr :: trs' => EvSeed (seed + k) :: tr ++ attempts_trace seed (k + 1) trs'
  end.

(** The cross product the sweep visits, outermost loop first. *)
Definition combinations (cfg : InstanceConfig) : list failed_tuple :=
  m ← num_classes cfg; n ← num_items cfg; d ← capacities cfg;
  vr ← item_weight_ranges cfg; sr ← setup_weight_ranges cfg;
  f ← setup_cost_flags cfg; seed ← seeds cfg;
  [Failed d n m vr.1 vr.2 sr.1 sr.2 f seed].

(** Two items for five classes of at least two items each. *)
Abbreviation infeasible_cfg :=
  {| capacities := [200]; num_items := [2]; num_classes := [5];
     item_weight_ranges := [(literal 5 2, literal 15 2)];
     setup_weight_ranges := [(literal 1 2, literal 10 2)];
     setup_cost_flags := [0]; seeds := [0];
     min_items_per_class := 2; output_directory := "generated_instances" |}.

(** A computation whose outcome and final generator state depend on the
    world only through the generator state. *)
Definition rng_only {G : RandomSource} {A} (c : M A) : Prop :=
  ∀ σ1 σ2 : world, rng σ1 = rng σ2 →
    (c σ1).1 = (c σ2).1 ∧ rng (c σ1).2 = rng (c σ2).2.

(** A second world to start from: another generator state, a history and
    a stale file at the instance's path. *)
Definition other_world : @world LCG :=
  @World LCG 42 [EvSeed 7; EvRandint 0 9 3]
    {[ ("generated_instances", "bpps_d200n10m5w10_30s2_20f0_seed0.txt")
         := "stale" ]}.

(** [lo / scale <= x <= hi / scale] for a finite float [x]. *)
Definition scaled_between (lo hi scale : Z) (x : float) : Prop :=
  match x with
  | S754_zero _ => lo ≤ 0 ≤ hi
  | S754_finite s m e =>
      if decide (0 ≤ e)
      then lo ≤ scale * (cond_Zopp s (Zpos m) * 2 ^ e) ≤ hi
      else lo * 2 ^ (- e) ≤ scale * cond_Zopp s (Zpos m) ≤ hi * 2 ^ (- e)
  | _ => False
  end.

(** Three combinations, the second of them infeasible, and the statistics
    their sweep returns. *)
Abbreviation three_cfg :=
  {| capacities := [200]; num_items := [10; 2; 12]; num_classes := [5];
     item_weight_ranges := [(literal 5 2, literal 15 2)];
     setup_weight_ranges := [(literal 1 2, literal 10 2)];
     setup_cost_flags := [0]; seeds := [0];
     min_items_per_class := 2; output_directory := "generated_instances" |}.

Abbreviation three_stats :=
  (Statistics 3 2 1 (PyFloat (S754_finite false 4691249611844266 (-46)))
     [Failed 200 2 5 (literal 5 2) (literal 15 2) (literal 1 2) (literal 10 2)
        0 0]).

(** [x < y] on floats. *)
Definition float_lt (x y : float) : Prop := SFltb x y = true.

(** A configuration the documentation calls malformed: some fraction pair
    has its minimum above its maximum, or some dimension list is empty. *)
Definition malformed (cfg : InstanceConfig) : Prop :=
  Exists (λ vr, float_lt vr.2 vr.1)
    (item_weight_ranges cfg ++ setup_weight_ranges cfg)
  ∨ combinations cfg = [].

(** No seed to sweep over. *)
Abbreviation empty_seeds_cfg :=
  {| capacities := [200]; num_items := [10]; num_classes := [5];
     item_weight_ranges := [(literal 5 2, literal 15 2)];
     setup_weight_ranges := [(literal 1 2, literal 10 2)];
     setup_cost_flags := [0]; seeds := [];
     min_items_per_class := 2; output_directory := "generated_instances" |}.

(** The second pair of item-weight fractions is (0.15, 0.05). *)
Abbreviation inverted_pair_cfg :=
  {| capacities := [200]; num_items := [10]; num_classes := [5];
     item_weight_ranges :=
       [(literal 5 2, literal 15 2); (literal 15 2, literal 5 2)];
     setup_weight_ranges := [(literal 1 2, literal 10 2)];
     setup_cost_flags := [0]; seeds := [0];
     min_items_per_class := 2; output_directory := "generated_instances" |}.

(** A computation that leaves the files as they are, whatever it returns. *)
Definition keeps_files {G : RandomSource} {A} (c : M A) : Prop :=
  ∀ σ : world, files (c σ).2 = files σ.

(** The characters a decimal rendering of an integer is made of. *)
Definition numeric (c : ascii) : bool :=
  match Ascii.is_nat c with
  | Some _ => true
  | None => bool_decide (c = "-"%char)
  end.

Fixpoint numeric_string (s : string) : Prop :=
  match s with
  | EmptyString => True
  | String c s' => numeric c = true ∧ numeric_string s'
  end.

(** The writes of a run replayed on a file store: each entry of [ws] sets
    one path, in order. *)
Definition write_all (ws : list ((string * string) * string))
    (fs : gmap (string * string) string) : gmap (string * string) string :=
  foldl (λ fs pc, <[pc.1 := pc.2]> fs) fs ws.

(** The builder call the sweep makes for a tuple. *)
Definition build_tuple {G : RandomSource} (cfg : InstanceConfig)
    (t : failed_tuple) : M bool :=
  _generate_single_instance cfg (ft_d t) (ft_n t) (ft_m t)
    (ft_v1 t) (ft_v2 t) (ft_s1 t) (ft_s2 t) (ft_f t) (ft_seed t).

(** A computation that never reseeds the generator: whatever it adds to
    the history holds no [random.seed] call. *)
Definition seedless {G : RandomSource} {A} (c : M A) : Prop :=
  ∀ σ : world, ∃ tr, trace (c σ).2 = trace σ ++ tr ∧ seeds_of tr = [].

(** The parameters with which every pass reaches the acceptance test: a
    class to draw into, a non-empty weight range if there is an item to
    draw, and a non-empty setup-weight range. *)
Definition drawable (n m w_min w_max s_min s_max : Z) : Prop :=
  0 < m ∧ (0 < n → w_min ≤ w_max) ∧ s_min ≤ s_max.

(** The tuples whose bounds can be derived and are drawable. *)
Definition valid_tuple (t : failed_tuple) : Prop :=
  match derive_bounds (ft_d t) (ft_v1 t) (ft_v2 t) (ft_s1 t) (ft_s2 t) with
  | inl _ => False
  | inr (w_min, w_max, s_min, s_max) =>
      drawable (ft_n t) (ft_m t) w_min w_max s_min s_max
  end.

#[global] Instance drawable_dec n m w_min w_max s_min s_max :
  Decision (drawable n m w_min w_max s_min s_max).
Proof. unfold drawable. apply _. Defined.

#[global] Instance valid_tuple_dec t : Decision (valid_tuple t).
Proof.
  unfold valid_tuple.
  destruct (derive_bounds _ _ _ _ _) as [e|[[[w_min w_max] s_min] s_max]];
    apply _.
Defined.

(** The first fraction pair is in order, the second is inverted. *)
Abbreviation aborting_cfg :=
  {| capacities := [200]; num_items := [10]; num_classes := [5];
     item_weight_ranges :=
       [(literal 5 2, literal 15 2); (literal 15 2, literal 5 2)];
     setup_weight_ranges := [(literal 1 2, literal 10 2)];
     setup_cost_flags := [0]; seeds := [0; 1];
     min_items_per_class := 2; output_directory := "generated_instances" |}.

(** * Facts about the embedding *)

(** ** Dictionaries *)

Section dict_facts.
Context {V : Type}.
Implicit Types (dc : dict V) (k : Z) (v : V).

Lemma dict_get_Some_key dc k v : dict_get dc k = Some v → k ∈ dict_keys dc.
Proof.
  induction dc as [|[k' v'] dc IH]; simpl; [done|].
  case_decide; intros; simplify_eq; [left | right; auto].
Qed.

Lemma dict_get_key dc k : k ∈ dict_keys dc → is_Some (dict_get dc k).
Proof.
  induction dc as [|[k' v'] dc IH]; simpl.
  - by intros ?%elem_of_nil.
  - intros Hk. case_decide; [eauto|].
    apply elem_of_cons in Hk as [?|?]; [congruence | auto].
Qed.

Lemma dict_set_keys_known dc k v :
  k ∈ dict_keys dc → dict_keys (dict_set dc k v) = dict_keys dc.
Proof.
  induction dc as [|[k' v'] dc IH]; simpl.
  - by intros ?%elem_of_nil.
  - intros Hk. case_decide; simpl; [done|]. f_equal.
    apply elem_of_cons in Hk as [?|?]; [congruence | auto].
Qed.

Lemma dict_set_fresh dc k v :
  k ∉ dict_keys dc → dict_set dc k v = dc ++ [(k, v)].
Proof.
  induction dc as [|[k' v'] dc IH]; simpl; [done|].
  intros Hk. apply not_elem_of_cons in Hk as [? ?].
  case_decide; [congruence|]. by rewrite IH.
Qed.

Lemma dict_get_set dc k v k' :
  dict_get (dict_set dc k v) k' =
    if decide (k = k') then Some v else dict_get dc k'.
Proof.
  induction dc as [|[k0 v0] dc IH]; simpl.
  - by repeat case_decide.
  - repeat (case_decide; simpl; simplify_eq); try done.
    all: rewrite IH; by case_decide.
Qed.

Lemma dict_values_set dc k v (P : V → Prop) :
  Forall P (dict_values dc) → P v → Forall P (dict_values (dict_set dc k v)).
Proof.
  unfold dict_values.
  induction dc as [|[k' v'] dc IH]; simpl; intros Hdc Hv.
  - by constructor.
  - apply Forall_cons in Hdc as [? ?].
    case_decide; simpl; constructor; auto.
Qed.

Lemma dict_get_value dc k v (P : V → Prop) :
  Forall P (dict_values dc) → dict_get dc k = Some v → P v.
Proof.
  unfold dict_values.
  induction dc as [|[k' v'] dc IH]; simpl; [done|].
  intros [? ?]%Forall_cons. case_decide; intros; simplify_eq; auto.
Qed.

(** A comprehension over distinct keys lists them in order. *)
Lemma dict_comp_foldl (f : Z → V) ks dc :
  NoDup ks → (∀ k, k ∈ ks → k ∉ dict_keys dc) →
  foldl (λ dc k, dict_set dc k (f k)) dc ks = dc ++ ((λ k, (k, f k)) <$> ks).
Proof.
  revert dc. induction ks as [|k ks IH]; intros dc Hnd Hfresh; simpl.
  - by rewrite app_nil_r.
  - apply NoDup_cons in Hnd as [Hk Hnd].
    rewrite dict_set_fresh by (apply Hfresh; left).
    rewrite IH; [by rewrite <- app_assoc | done |].
    intros k' Hk'. unfold dict_keys. rewrite fmap_app. simpl.
    intros [?|Hin]%elem_of_app.
    + by apply (Hfresh k'); [right|].
    + apply list_elem_of_singleton in Hin. congruence.
Qed.

Lemma dict_comp_range (f : Z → V) m :
  dict_comp f (range m) = (λ k, (k, f k)) <$> range m.
Proof.
  unfold dict_comp. rewrite dict_comp_foldl; [done | apply NoDup_seqZ |].
  intros k _. apply not_elem_of_nil.
Qed.

Lemma dict_comp_keys (f : Z → V) m : dict_keys (dict_comp f (range m)) = range m.
Proof.
  rewrite dict_comp_range. unfold dict_keys.
  rewrite <- list_fmap_compose. apply list_fmap_id.
Qed.

Lemma dict_comp_values (f : Z → V) m :
  dict_values (dict_comp f (range m)) = f <$> range m.
Proof.
  rewrite dict_comp_range. unfold dict_values.
  by rewrite <- list_fmap_compose.
Qed.

Lemma dict_comp_get (f : Z → V) m k :
  k ∈ range m → dict_get (dict_comp f (range m)) k = Some (f k).
Proof.
  rewrite dict_comp_range. induction (range m) as [|k' ks IH]; simpl.
  - by intros ?%elem_of_nil.
  - intros Hk. case_decide; [congruence|].
    apply elem_of_cons in Hk as [?|?]; [congruence | auto].
Qed.
End dict_facts.

(** ** Running computations *)

Section run_facts.
Context {G : RandomSource}.

Lemma bind_run {A B} (c : M A) (k : A → M B) σ :
  (c ≫= k) σ =
    match c σ with (inr a, σ') => k a σ' | (inl e, σ') => (inl e, σ') end.
Proof. reflexivity. Qed.

Lemma bind_ok {A B} (c : M A) (k : A → M B) σ a σ1 :
  c σ = (inr a, σ1) → (c ≫= k) σ = k a σ1.
Proof. intros H. by rewrite bind_run, H. Qed.

Lemma bind_raise {A B} (c : M A) (k : A → M B) σ e σ1 :
  c σ = (inl e, σ1) → (c ≫= k) σ = (inl e, σ1).
Proof. intros H. by rewrite bind_run, H. Qed.

Lemma bind_ok_inv {A B} (c : M A) (k : A → M B) σ b σ' :
  (c ≫= k) σ = (inr b, σ') →
  ∃ a σ1, c σ = (inr a, σ1) ∧ k a σ1 = (inr b, σ').
Proof.
  rewrite bind_run. destruct (c σ) as [[e|a] σ1]; [done|]. eauto.
Qed.

Lemma ret_ok_inv {A} (a b : A) (σ σ' : world) :
  mret (M:=M) a σ = (inr b, σ') → b = a ∧ σ' = σ.
Proof. by intros [= -> ->]. Qed.

Lemma lift_ok_inv {A} (r : exn + A) (σ σ' : world) b :
  lift r σ = (inr b, σ') → r = inr b ∧ σ' = σ.
Proof. by intros [= -> ->]. Qed.

Lemma dict_getM_ok_inv {V} (dc : dict V) k (σ σ' : world) v :
  dict_getM dc k σ = (inr v, σ') → dict_get dc k = Some v ∧ σ' = σ.
Proof.
  unfold dict_getM. destruct (dict_get dc k); [|done]. by intros [= -> ->].
Qed.

Lemma randint_ok_inv a b (σ σ' : world) v :
  randint a b σ = (inr v, σ') →
  a ≤ v ≤ b ∧ rng σ' = (rng_randint a b (rng σ)).2 ∧
  v = (rng_randint a b (rng σ)).1 ∧
  trace σ' = trace σ ++ [EvRandint a b v] ∧ files σ' = files σ.
Proof.
  unfold randint. case_decide; [done|].
  pose proof (rng_randint_range a b (rng σ)) as Hr.
  destruct (rng_randint a b (rng σ)) as [v' s']. intros [= -> <-]. simpl in *.
  split_and!; auto with lia.
Qed.

Lemma randint_ok a b (σ : world) :
  a ≤ b → ∃ v σ', randint a b σ = (inr v, σ').
Proof.
  intros Hab. unfold randint. case_decide; [lia|].
  destruct (rng_randint a b (rng σ)); eauto.
Qed.

(** The loop rule: an invariant indexed by the elements already visited. *)
Lemma foldM_inv {A B} (f : B → A → M B)
    (Inv : list A → B → world → Prop) l b σ b' σ' :
  Inv [] b σ →
  (∀ done a rest b σ b1 σ1, l = done ++ a :: rest →
     Inv done b σ → f b a σ = (inr b1, σ1) → Inv (done ++ [a]) b1 σ1) →
  foldM f b l σ = (inr b', σ') → Inv l b' σ'.
Proof.
  intros H0 Hstep.
  assert (∀ rest done b σ, l = done ++ rest → Inv done b σ →
            foldM f b rest σ = (inr b', σ') → Inv l b' σ') as Hgen.
  { induction rest as [|a rest IH]; intros done b0 σ0 -> Hinv Hrun.
    - apply ret_ok_inv in Hrun as [-> ->]. by rewrite app_nil_r.
    - simpl in Hrun. apply bind_ok_inv in Hrun as (b1 & σ1 & Hf & Hrun).
      apply (IH (done ++ [a]) b1 σ1); [by rewrite <- app_assoc | | done].
      eapply Hstep; eauto. }
  intros Hrun. by apply (Hgen l [] b σ).
Qed.

(** The loop rule for termination without an exception. *)
Lemma foldM_ok {A B} (f : B → A → M B) (Inv : B → world → Prop) l b σ :
  Inv b σ →
  (∀ a b σ, a ∈ l → Inv b σ →
     ∃ b1 σ1, f b a σ = (inr b1, σ1) ∧ Inv b1 σ1) →
  ∃ b' σ', foldM f b l σ = (inr b', σ') ∧ Inv b' σ'.
Proof.
  revert b σ. induction l as [|a l IH]; intros b σ Hinv Hstep; simpl.
  - eauto.
  - destruct (Hstep a b σ) as (b1 & σ1 & Hf & Hinv1); [left | done |].
    rewrite (bind_ok _ _ _ _ _ Hf). apply IH; [done|].
    intros. apply Hstep; [by right | done].
Qed.

Lemma foldM_app {A B} (f : B → A → M B) l1 l2 b σ :
  foldM f b (l1 ++ l2) σ = (b' ← foldM f b l1; foldM f b' l2) σ.
Proof.
  revert b σ. induction l1 as [|a l1 IH]; intros b σ; [done|].
  simpl. rewrite !bind_run. destruct (f b a σ) as [[e|b1] σ1]; [done|].
  by rewrite IH, bind_run.
Qed.

Lemma foldM_ext {A B} (f g : B → A → M B) l b σ :
  (∀ b a σ, f b a σ = g b a σ) → foldM f b l σ = foldM g b l σ.
Proof.
  intros Hfg. revert b σ. induction l as [|a l IH]; intros b σ; [done|].
  simpl. rewrite !bind_run, Hfg. by destruct (g b a σ) as [[?|?] ?].
Qed.
End run_facts.

(** Take a successful run apart along its binds. *)
Ltac inv_run H :=
  repeat match type of H with
  | (_ ≫= _) _ = (inr _, _) =>
      let a := fresh "a" in let σ := fresh "σ" in let H1 := fresh "Hrun" in
      apply bind_ok_inv in H as (a & σ & H1 & H)
  end.

(** ** What one pass of the loop draws *)

Lemma select_snoc i asg c w :
  select i (asg ++ [(c, w)]) = select i asg ++ (if decide (c = i) then [w] else []).
Proof.
  unfold select. rewrite filter_app, fmap_app. f_equal.
  rewrite filter_cons, filter_nil. simpl. by case_decide.
Qed.

Lemma item_events_snoc m w_min w_max asg c w :
  item_events m w_min w_max (asg ++ [(c, w)]) =
    item_events m w_min w_max asg ++ [EvRandint 0 (m - 1) c; EvRandint w_min w_max w].
Proof. unfold item_events. by rewrite bind_app. Qed.

Section draw_facts.
Context {G : RandomSource}.

Lemma draw_costs_inv (a b : Z) ks (σ σ' : world) sc :
  NoDup ks →
  dict_compM (λ _, randint a b) ks σ = (inr sc, σ') →
  ∃ costs, length costs = length ks ∧ Forall (λ v, a ≤ v ≤ b) costs ∧
    sc = zip ks costs ∧ trace σ' = trace σ ++ (EvRandint a b <$> costs) ∧
    files σ' = files σ.
Proof.
  intros Hnd Hrun. unfold dict_compM in Hrun.
  eapply (foldM_inv _ (λ done dc σ1, ∃ costs, length costs = length done ∧
      Forall (λ v, a ≤ v ≤ b) costs ∧ dc = zip done costs ∧
      trace σ1 = trace σ ++ (EvRandint a b <$> costs) ∧
      files σ1 = files σ)) in Hrun; [done | | ].
  - exists []. by rewrite app_nil_r.
  - clear Hrun. intros done k rest dc σ1 dc1 σ2 -> (costs & Hlen & Hall & -> & Htr & Hfs) Hstep.
    inv_run Hstep. apply ret_ok_inv in Hstep as [-> ->].
    apply randint_ok_inv in Hrun as (Hv & _ & _ & Htr' & Hfs').
    exists (costs ++ [a0]). split_and!.
    + rewrite !length_app. simpl. lia.
    + apply Forall_app. auto.
    + rewrite dict_set_fresh.
      * by rewrite zip_with_app.
      * unfold dict_keys. rewrite fst_zip by lia.
        apply NoDup_app in Hnd as (_ & Hnd & _). intros Hin.
        apply (Hnd k Hin). left.
    + rewrite Htr', Htr, fmap_app. by rewrite <- app_assoc.
    + congruence.
Qed.

Lemma assign_items_inv (n m w_min w_max : Z) classes0 (σ σ' : world) cls :
  dict_keys classes0 = range m →
  (∀ i, i ∈ range m → dict_get classes0 i = Some []) →
  foldM (λ (classes : dict (list Z)) (_ : Z),
      class_id ← randint 0 (m - 1);
      item_weight ← randint w_min w_max;
      ws ← dict_getM classes class_id;
      mret (dict_set classes class_id (ws ++ [item_weight])))
    classes0 (range n) σ = (inr cls, σ') →
  ∃ asg, length asg = length (range n) ∧
    Forall (λ p, 0 ≤ p.1 ≤ m - 1 ∧ w_min ≤ p.2 ≤ w_max) asg ∧
    dict_keys cls = range m ∧
    (∀ i, i ∈ range m → dict_get cls i = Some (select i asg)) ∧
    trace σ' = trace σ ++ item_events m w_min w_max asg ∧
    files σ' = files σ.
Proof.
  intros Hkeys Hempty Hrun.
  eapply (foldM_inv _ (λ done cls σ1, ∃ asg, length asg = length done ∧
      Forall (λ p, 0 ≤ p.1 ≤ m - 1 ∧ w_min ≤ p.2 ≤ w_max) asg ∧
      dict_keys cls = range m ∧
      (∀ i, i ∈ range m → dict_get cls i = Some (select i asg)) ∧
      trace σ1 = trace σ ++ item_events m w_min w_max asg ∧
      files σ1 = files σ)) in Hrun; [done | | ].
  - exists []. split_and!; auto. by rewrite app_nil_r.
  - clear Hrun. intros done j rest cl σ1 cl1 σ2 _
      (asg & Hlen & Hall & Hk & Hget & Htr & Hfs) Hstep.
    inv_run Hstep. apply ret_ok_inv in Hstep as [-> ->].
    apply randint_ok_inv in Hrun as (Hc & _ & _ & Htr1 & Hfs1).
    apply randint_ok_inv in Hrun0 as (Hw & _ & _ & Htr2 & Hfs2).
    apply dict_getM_ok_inv in Hrun1 as [Hws ->].
    exists (asg ++ [(a, a0)]). split_and!.
    + rewrite !length_app. simpl. lia.
    + apply Forall_app. split; [done|]. constructor; [done | constructor].
    + rewrite dict_set_keys_known; [done|]. by eapply dict_get_Some_key.
    + intros i Hi. rewrite dict_get_set, select_snoc.
      case_decide as Hai.
      * subst i. rewrite (Hget a Hi) in Hws. by simplify_eq.
      * rewrite app_nil_r. auto.
    + rewrite item_events_snoc, Htr2, Htr1, Htr. by rewrite <- !app_assoc.
    + congruence.
Qed.

Lemma flatten_items_inv (cls : dict (list Z)) (g : Z → list Z) ks
    (σ σ' : world) its :
  (∀ i, i ∈ ks → dict_get cls i = Some (g i)) →
  foldM (λ items cl, ws ← dict_getM cls cl; mret (items ++ ws)) [] ks σ
    = (inr its, σ') →
  its = concat (g <$> ks) ∧ σ' = σ.
Proof.
  intros Hget Hrun.
  eapply (foldM_inv _ (λ done its σ1,
      its = concat (g <$> done) ∧ σ1 = σ)) in Hrun; [done | done | ].
  clear Hrun. intros done k rest its0 σ1 its1 σ2 -> [-> ->] Hstep.
  inv_run Hstep. apply ret_ok_inv in Hstep as [-> ->].
  apply dict_getM_ok_inv in Hrun as [Hws ->].
  rewrite Hget in Hws by (apply elem_of_app; right; left). simplify_eq.
  split; [|done]. rewrite fmap_app, concat_app. simpl. by rewrite app_nil_r.
Qed.

Lemma draw_setups_inv (s_min s_max : Z) setups0 ks (σ σ' : world) st :
  dict_keys setups0 = ks →
  foldM (λ (setups : dict Z) cl,
      setup_weight ← randint s_min s_max;
      mret (dict_set setups cl setup_weight))
    setups0 ks σ = (inr st, σ') →
  dict_keys st = ks ∧
  (∀ i, i ∈ ks → ∃ v, dict_get st i = Some v ∧ s_min ≤ v ≤ s_max) ∧
  ∃ sws, length sws = length ks ∧
    trace σ' = trace σ ++ (EvRandint s_min s_max <$> sws) ∧
    files σ' = files σ.
Proof.
  intros Hkeys Hrun.
  eapply (foldM_inv _ (λ done st σ1, dict_keys st = ks ∧
      (∀ i, i ∈ done → ∃ v, dict_get st i = Some v ∧ s_min ≤ v ≤ s_max) ∧
      ∃ sws, length sws = length done ∧
        trace σ1 = trace σ ++ (EvRandint s_min s_max <$> sws) ∧
        files σ1 = files σ)) in Hrun; [done | | ].
  - split_and!; [done | by intros i ?%elem_of_nil |].
    exists []. by rewrite app_nil_r.
  - clear Hrun. intros done k rest st0 σ1 st1 σ2 Hks
      (Hk & Hget & sws & Hlen & Htr & Hfs) Hstep.
    inv_run Hstep. apply ret_ok_inv in Hstep as [-> ->].
    apply randint_ok_inv in Hrun as (Hv & _ & _ & Htr1 & Hfs1).
    split_and!.
    + rewrite dict_set_keys_known; [done|].
      rewrite Hk, Hks. apply elem_of_app. right. left.
    + intros i Hi. rewrite dict_get_set. case_decide; [eauto|].
      apply Hget. apply elem_of_app in Hi as [?|Hi]; [done|].
      apply list_elem_of_singleton in Hi. congruence.
    + exists (sws ++ [a]). split_and!.
      * rewrite !length_app. simpl. lia.
      * rewrite Htr1, Htr, fmap_app. by rewrite <- app_assoc.
      * congruence.
Qed.
End draw_facts.

Section draw_instance_facts.
Context {G : RandomSource}.

Lemma setup_costs_inv (m f : Z) (σ σ' : world) sc bc :
  (if decide (f = 0) then mret (dict_comp (λ _, 0) (range m), 1)
   else sc ← dict_compM (λ _, randint 1 5) (range m); mret (sc, 10)) σ
    = (inr (sc, bc), σ') →
  ∃ costs, length costs = (if decide (f = 0) then 0%nat else Z.to_nat m) ∧
    trace σ' = trace σ ++ (EvRandint 1 5 <$> costs) ∧ files σ' = files σ ∧
    bc = (if decide (f = 0) then 1 else 10) ∧
    dict_keys sc = range m ∧
    ∀ i, i ∈ range m → ∃ v, dict_get sc i = Some v ∧
      if decide (f = 0) then v = 0 else 1 ≤ v ≤ 5.
Proof.
  case_decide as Hf; intros Hrun.
  - apply ret_ok_inv in Hrun as [[= -> ->] ->]. exists [].
    split_and!; auto using dict_comp_keys; [by rewrite app_nil_r|].
    intros i Hi. exists 0. by rewrite dict_comp_get.
  - inv_run Hrun. apply ret_ok_inv in Hrun as [[= -> ->] ->].
    apply draw_costs_inv in Hrun0 as (costs & Hlen & Hall & -> & Htr & Hfs);
      [|apply NoDup_seqZ].
    unfold range in Hlen. rewrite length_seqZ in Hlen.
    assert (dict_keys (zip (range m) costs) = range m) as Hkeys.
    { unfold dict_keys. apply fst_zip. unfold range. rewrite length_seqZ. lia. }
    exists costs. split_and!; auto.
    intros i Hi. destruct (dict_get_key (zip (range m) costs) i) as [v Hv];
      [by rewrite Hkeys|].
    exists v. split; [done|].
    apply (dict_get_value _ _ _ (λ v, 1 ≤ v ≤ 5)) in Hv; [done|].
    unfold dict_values. rewrite snd_zip; [done|].
    unfold range. rewrite length_seqZ. lia.
Qed.

Lemma draw_instance_inv n m w_min w_max s_min s_max f sk (σ σ' : world) dr :
  draw_instance n m w_min w_max s_min s_max f sk σ = (inr dr, σ') →
  ∃ costs asg sws,
    drawn_from n m w_min w_max s_min s_max f sk costs asg sws σ σ' dr.
Proof.
  unfold draw_instance. intros Hrun.
  apply bind_ok_inv in Hrun as ([] & σ1 & Hseed & Hrun).
  injection Hseed as <-.
  apply bind_ok_inv in Hrun as ([sc bc] & σ2 & Hcosts & Hrun).
  apply setup_costs_inv in Hcosts
    as (costs & Hclen & Htr2 & Hfs2 & -> & Hsck & Hsc).
  apply bind_ok_inv in Hrun as (cls & σ3 & Hitems & Hrun).
  apply assign_items_inv in Hitems
    as (asg & Halen & Harange & Hclk & Hcl & Htr3 & Hfs3);
    [| apply dict_comp_keys | by intros; rewrite dict_comp_get].
  apply bind_ok_inv in Hrun as (its & σ4 & Hflat & Hrun).
  apply (flatten_items_inv _ (λ i, select i asg)) in Hflat as [-> ->];
    [| by rewrite Hclk].
  apply bind_ok_inv in Hrun as (st & σ5 & Hsetups & Hrun).
  apply ret_ok_inv in Hrun as [-> ->].
  apply draw_setups_inv in Hsetups
    as (Hstk & Hst & sws & Hslen & Htr5 & Hfs5);
    [| by rewrite dict_comp_keys].
  unfold range in Halen, Hslen. rewrite Hclk in *.
  unfold range in Hslen. rewrite length_seqZ in Halen, Hslen.
  exists costs, asg, sws. split; simpl; auto.
  - by rewrite Hfs5, Hfs3, Hfs2.
  - rewrite Htr5, Htr3, Htr2. simpl. by rewrite <- !app_assoc.
Qed.
End draw_instance_facts.

(** ** Strings and the file writer *)

Lemma string_app_assoc (s1 s2 s3 : string) :
  (s1 +:+ s2) +:+ s3 = s1 +:+ (s2 +:+ s3).
Proof.
  induction s1 as [|c s1 IH]; [done|].
  unfold String.app in *. simpl. by rewrite IH.
Qed.

Lemma string_app_nil_r (s : string) : s +:+ EmptyString = s.
Proof.
  induction s as [|c s IH]; [done|].
  unfold String.app in *. simpl. by rewrite IH.
Qed.

Lemma concat_lines_snoc l s : concat_lines (l ++ [s]) = concat_lines l +:+ s.
Proof.
  induction l as [|x l IH]; simpl.
  - by rewrite string_app_nil_r.
  - by rewrite IH, string_app_assoc.
Qed.

Lemma concat_lines_app l1 l2 :
  concat_lines (l1 ++ l2) = concat_lines l1 +:+ concat_lines l2.
Proof.
  induction l1 as [|x l1 IH]; simpl; [done|].
  by rewrite IH, string_app_assoc.
Qed.

Section writer_facts.
Context {G : RandomSource}.

Lemma file_write_after (path : string * string) (s t : string) (σ : world) fs :
  files σ = <[path := s]> fs →
  ∃ σ', file_write path t σ = (inr (), σ') ∧ rng σ' = rng σ ∧
    trace σ' = trace σ ∧ files σ' = <[path := s +:+ t]> fs.
Proof.
  intros Hfs. eexists. split; [reflexivity|]. simpl. split_and!; auto.
  by rewrite Hfs, lookup_insert_eq, insert_insert_eq.
Qed.

Lemma write_instance_file_inv cfg d n m w_min w_max s_min s_max f seed bc
    (cls : dict (list Z)) (sc st : dict Z) its (σ σ' : world) :
  _write_instance_file cfg d n m w_min w_max s_min s_max f seed bc
    cls sc st its σ = (inr (), σ') →
  rng σ' = rng σ ∧ trace σ' = trace σ ∧
  files σ' =
    <[(output_directory cfg,
       _generate_filename d n m w_min w_max s_min s_max f seed) :=
        header_line n m d bc
        +:+ concat_lines (class_lines (class_table m cls sc st))
        +:+ concat_lines (weight_line <$> its)]> (files σ).
Proof.
  unfold _write_instance_file.
  set (path := (output_directory cfg, _)). intros Hrun.
  apply bind_ok_inv in Hrun as ([] & σ1 & Hopen & Hrun). injection Hopen as <-.
  apply bind_ok_inv in Hrun as ([] & σ2 & Hhead & Hrun). injection Hhead as <-.
  apply bind_ok_inv in Hrun as ([] & σ3 & Hcls & Hrun).
  set (row := λ i, (default 0 (dict_get sc i), default 0 (dict_get st i),
                    default [] (dict_get cls i))).
  eapply (foldM_inv _ (λ done _ σi, rng σi = rng σ ∧ trace σi = trace σ ∧
      files σi = <[path := header_line n m d bc
                    +:+ concat_lines (class_lines (row <$> done))]> (files σ)))
    in Hcls.
  - destruct Hcls as (Hrng3 & Htr3 & Hfs3).
    eapply (foldM_inv _ (λ done _ σi, rng σi = rng σ ∧ trace σi = trace σ ∧
      files σi = <[path := header_line n m d bc
         +:+ concat_lines (class_lines (class_table m cls sc st))
         +:+ concat_lines (weight_line <$> done)]> (files σ))) in Hrun;
      [done | | ].
    + simpl. by rewrite string_app_nil_r.
    + clear. intros done w rest [] σi [] σj _ (Hrng & Htr & Hfs) Hstep.
      destruct (file_write_after path _ (weight_line w) σi _ Hfs)
        as (σj' & Hw & ? & ? & Hfs').
      rewrite Hw in Hstep. injection Hstep as <-.
      split_and!; [congruence.. |].
      by rewrite Hfs', fmap_snoc, concat_lines_snoc, !string_app_assoc.
  - simpl. split_and!; auto.
    by rewrite lookup_insert_eq, insert_insert_eq, string_app_nil_r.
  - clear. intros done i rest [] σi [] σj _ (Hrng & Htr & Hfs) Hstep.
    apply bind_ok_inv in Hstep as (ws & σk & Hws & Hstep).
    apply dict_getM_ok_inv in Hws as [Hws ->].
    assert (class_lines (row <$> done ++ [i]) =
      class_lines (row <$> done) ++
        (if decide (ws = []) then []
         else [class_line (default 0 (dict_get sc i))
                 (default 0 (dict_get st i)) (Z.of_nat (length ws))])) as Hlines.
    { unfold class_lines.
      assert (row i = (default 0 (dict_get sc i), default 0 (dict_get st i), ws))
        as Hrow by (unfold row; by rewrite Hws).
      unfold class_records. rewrite fmap_app, filter_app, !fmap_app. f_equal.
      simpl. rewrite filter_cons, filter_nil, Hrow. simpl.
      repeat case_decide; first [done | congruence]. }
    rewrite Hlines. case_decide.
    + apply ret_ok_inv in Hstep as [_ ->]. by rewrite app_nil_r.
    + inv_run Hstep.
      apply dict_getM_ok_inv in Hrun as [Hsc ->].
      apply dict_getM_ok_inv in Hrun0 as [Hst ->].
      rewrite Hsc, Hst. simpl.
      destruct (file_write_after path _
        (class_line a a0 (Z.of_nat (length ws))) σi _ Hfs)
        as (σj' & Hw & ? & ? & Hfs').
      rewrite Hw in Hstep. injection Hstep as <-.
      split_and!; [congruence.. |].
      by rewrite Hfs', concat_lines_snoc, !string_app_assoc.
Qed.
End writer_facts.

(** ** The acceptance test and the retry loop *)

Lemma foldl_min_le (x : Z) (l : list Z) :
  foldl Z.min x l ≤ x ∧ Forall (λ y, foldl Z.min x l ≤ y) l.
Proof.
  revert x. induction l as [|y l IH]; intros x; simpl.
  - split; [lia | constructor].
  - destruct (IH (Z.min x y)) as [Hle Hall]. split; [lia|].
    constructor; [lia | done].
Qed.

Lemma py_min_lower (l : list Z) (mn : Z) :
  py_min l = inr mn → l ≠ [] ∧ Forall (λ y, mn ≤ y) l.
Proof.
  destruct l as [|x l]; [done|]. intros [= <-]. split; [done|].
  destruct (foldl_min_le x l). by constructor.
Qed.

Lemma foldl_min_elem (x : Z) (l : list Z) : foldl Z.min x l ∈ x :: l.
Proof.
  revert x. induction l as [|y l IH]; intros x; simpl; [left|].
  specialize (IH (Z.min x y)).
  apply elem_of_cons in IH as [->|?]; [|by do 2 right].
  destruct (Z.min_spec x y) as [[_ ->]|[_ ->]]; [left | right; left].
Qed.

Section loop_facts.
Context {G : RandomSource}.

Lemma min_class_size_inv (m : Z) (cls : dict (list Z)) (g : Z → list Z)
    (σ σ' : world) mn :
  (∀ i, i ∈ range m → dict_get cls i = Some (g i)) →
  min_class_size m cls σ = (inr mn, σ') →
  σ' = σ ∧ py_min ((λ i, Z.of_nat (length (g i))) <$> range m) = inr mn.
Proof.
  intros Hget Hrun. unfold min_class_size in Hrun.
  apply bind_ok_inv in Hrun as (sizes & σ1 & Hsizes & Hrun).
  apply lift_ok_inv in Hrun as [Hmin ->].
  eapply (foldM_inv _ (λ done sizes σi,
      sizes = (λ i, Z.of_nat (length (g i))) <$> done ∧ σi = σ)) in Hsizes.
  - by destruct Hsizes as [<- ->].
  - done.
  - clear Hsizes. intros done i rest sz σi sz1 σj Hl [-> ->] Hstep.
    inv_run Hstep. apply ret_ok_inv in Hstep as [-> ->].
    apply dict_getM_ok_inv in Hrun as [Hws ->].
    rewrite Hget in Hws by (rewrite Hl; apply elem_of_app; right; left).
    simplify_eq.
    by rewrite fmap_snoc.
Qed.

Lemma class_table_weights m (dr : drawn) (asg : list (Z * Z)) :
  (∀ i, i ∈ range m → dict_get (classes dr) i = Some (select i asg)) →
  (class_table m (classes dr) (setup_costs dr) (setups dr)).*2
    = (λ i, select i asg) <$> range m.
Proof.
  intros Hget. unfold class_table. rewrite <- list_fmap_compose.
  apply list_fmap_ext. intros j i Hi%list_elem_of_lookup_2. simpl.
  by rewrite Hget.
Qed.

Lemma attempt_loop_inv cfg d n m w_min w_max s_min s_max f seed
    remaining k (σ σ' : world) :
  0 ≤ k → k + Z.of_nat remaining ≤ max_attempts →
  attempt_loop cfg d n m w_min w_max s_min s_max f seed remaining k σ
    = (inr true, σ') →
  ∃ dr asg,
    accepted_instance cfg d n m w_min w_max s_min s_max f seed σ' dr asg.
Proof.
  revert k σ. induction remaining as [|r IH]; intros k σ Hk Hmax Hrun.
  - by apply ret_ok_inv in Hrun as [? _].
  - simpl in Hrun.
    apply bind_ok_inv in Hrun as (dr & σ1 & Hdraw & Hrun).
    apply bind_ok_inv in Hrun as (mn & σ2 & Hmin & Hrun).
    apply draw_instance_inv in Hdraw as (costs & asg & sws & Hdr).
    apply (min_class_size_inv _ _ (λ i, select i asg)) in Hmin as [-> Hmin];
      [| by destruct Hdr].
    case_decide as Hacc; [| apply IH in Hrun; [done | lia | lia]].
    apply bind_ok_inv in Hrun as ([] & σ3 & Hwrite & Hrun).
    apply ret_ok_inv in Hrun as [_ ->].
    apply write_instance_file_inv in Hwrite as (_ & _ & Hfs).
    apply py_min_lower in Hmin as [Hne Hall].
    exists dr, asg. split.
    + exists k, costs, sws, σ, σ1. split; [lia | done].
    + destruct (decide (0 < m)); [done|].
      unfold range in Hne. by rewrite seqZ_nil in Hne by lia.
    + intros i Hi. rewrite Forall_fmap, Forall_forall in Hall.
      specialize (Hall i Hi). simpl in Hall. lia.
    + rewrite Hfs, lookup_insert_eq. unfold spec_file, spec_lines, weight_lines.
      rewrite (class_table_weights m dr asg) by by destruct Hdr.
      rewrite (df_items _ _ _ _ _ _ _ _ _ _ _ _ _ _ Hdr).
      simpl. by rewrite concat_lines_app.
Qed.

Lemma derive_bounds_inv d v1 v2 s1 s2 w_min w_max s_min s_max :
  derive_bounds d v1 v2 s1 s2 = inr (w_min, w_max, s_min, s_max) →
  floor_scaled d v1 = inr w_min ∧ ceil_scaled d v2 = inr w_max ∧
  floor_scaled d s1 = inr s_min ∧ ceil_scaled d s2 = inr s_max.
Proof.
  unfold derive_bounds.
  destruct (floor_scaled d v1), (ceil_scaled d v2), (floor_scaled d s1),
    (ceil_scaled d s2); naive_solver.
Qed.

Lemma generate_single_instance_inv cfg d n m v1 v2 s1 s2 f seed (σ σ' : world) :
  _generate_single_instance cfg d n m v1 v2 s1 s2 f seed σ = (inr true, σ') →
  ∃ w_min w_max s_min s_max dr asg,
    derive_bounds d v1 v2 s1 s2 = inr (w_min, w_max, s_min, s_max) ∧
    accepted_instance cfg d n m w_min w_max s_min s_max f seed σ' dr asg.
Proof.
  unfold _generate_single_instance. intros Hrun.
  apply bind_ok_inv in Hrun as ([[[w_min w_max] s_min] s_max] & σ1 & Hb & Hrun).
  apply lift_ok_inv in Hb as [Hb ->].
  apply attempt_loop_inv in Hrun as (dr & asg & Hacc);
    [| done | unfold max_attempts; lia].
  by exists w_min, w_max, s_min, s_max, dr, asg.
Qed.
End loop_facts.

(** ** Counting the items *)


Lemma select_filter_other i k asg :
  i ≠ k → select i (filter (λ p, p.1 ≠ k) asg) = select i asg.
Proof.
  intros Hik. unfold select. f_equal. rewrite list_filter_filter.
  apply list_filter_iff. intros [c w]. simpl.
  split; [tauto | intros Hc; split; congruence].
Qed.

(** Laid out class by class, the weights are those that were drawn. *)
Lemma select_concat_perm ks asg :
  NoDup ks → Forall (λ p, p.1 ∈ ks) asg →
  concat ((λ i, select i asg) <$> ks) ≡ₚ asg.*2.
Proof.
  intros Hnd. revert asg. induction Hnd as [|k ks Hk Hnd IH]; intros asg Hall.
  - destruct asg as [|p asg]; [done|].
    apply Forall_cons in Hall as [?%elem_of_nil _]. done.
  - rewrite fmap_cons. simpl.
    trans ((filter (λ p, p.1 = k) asg ++ filter (λ p, ¬ p.1 = k) asg).*2);
      [| by rewrite filter_app_complement].
    rewrite fmap_app. apply Permutation_app; [done|].
    replace ((λ i, select i asg) <$> ks)
      with ((λ i, select i (filter (λ p, p.1 ≠ k) asg)) <$> ks).
    + apply IH. apply Forall_forall. intros p Hp.
      apply list_elem_of_filter in Hp as [Hne Hin].
      rewrite Forall_forall in Hall. specialize (Hall p Hin).
      apply elem_of_cons in Hall as [?|?]; [congruence | done].
    + apply list_fmap_ext. intros j i Hi. apply list_elem_of_lookup_2 in Hi.
      apply select_filter_other. congruence.
Qed.

Lemma elem_of_range m i : i ∈ range m ↔ 0 ≤ i ≤ m - 1.
Proof. unfold range. rewrite elem_of_seqZ. lia. Qed.

Lemma select_concat_length m w_min w_max asg :
  Forall (λ p, 0 ≤ p.1 ≤ m - 1 ∧ w_min ≤ p.2 ≤ w_max) asg →
  length (concat ((λ i, select i asg) <$> range m)) = length asg.
Proof.
  intros Hall. rewrite select_concat_perm; [by rewrite length_fmap | apply NoDup_seqZ |].
  eapply Forall_impl; [done|]. intros p [? _]. by apply elem_of_range.
Qed.

(** The counts on the class lines add up to the number of weights below. *)
Lemma class_records_total (table : list (Z * Z * list Z)) :
  foldr (λ r acc, r.2 + acc) 0 (class_records table)
    = Z.of_nat (length (concat (table.*2))).
Proof.
  unfold class_records. induction table as [|r table IH]; [done|].
  rewrite fmap_cons. simpl concat. rewrite length_app, Nat2Z.inj_add, <- IH.
  destruct (decide (r.2 = [])) as [Hr|Hr].
  - rewrite filter_cons_False by (intros Hne; by apply Hne).
    by rewrite Hr.
  - by rewrite filter_cons_True by done.
Qed.

Lemma class_records_all (table : list (Z * Z * list Z)) :
  Forall (λ r, r.2 ≠ []) table →
  length (class_records table) = length table.
Proof.
  intros Hall. unfold class_records. rewrite length_fmap.
  induction Hall as [|r table Hr Hall IH]; [done|].
  rewrite filter_cons_True by done. simpl. by rewrite IH.
Qed.

Lemma class_table_Forall {G : RandomSource} (P : Z * Z * list Z → Prop) m
    (cls : dict (list Z)) (sc st : dict Z) :
  (∀ i, i ∈ range m →
     P (default 0 (dict_get sc i), default 0 (dict_get st i),
        default [] (dict_get cls i))) →
  Forall P (class_table m cls sc st).
Proof.
  intros HP. unfold class_table. apply Forall_fmap, Forall_forall.
  intros i Hi. by apply HP.
Qed.

(** * The generated files *)

(** The documentation's example: capacity 200 with fractions (0.05, 0.15)
    and (0.01, 0.10) gives the bounds 10, 30, 2 and 20 and the file name
    below; the default configuration sweeps 480 combinations. *)
Example example_bounds :
  derive_bounds 200 (literal 5 2) (literal 15 2) (literal 1 2) (literal 10 2)
    = inr (10, 30, 2, 20).
Proof. vm_compute. reflexivity. Qed.

Example example_filename :
  _generate_filename 200 10 5 10 30 2 20 0 0
    = "bpps_d200n10m5w10_30s2_20f0_seed0.txt".
Proof. vm_compute. reflexivity. Qed.

Example default_combinations :
  length (combinations create_default_config) = 480%nat.
Proof. vm_compute. reflexivity. Qed.


(** A run is the pair of its outcome and its final world. *)
Lemma run_pair {A B} (p : A * B) (a : A) : p.1 = a → p = (a, p.2).
Proof. intros <-. by destruct p. Qed.






(** C6: in every accepted instance, with [f = 0] every setup cost is 0 and
    the bin-usage cost is 1; with [f = 1] every setup cost lies in [1, 5]
    and the bin-usage cost is 10. *)
Theorem setup_costs_by_flag {G : RandomSource} cfg d n m v1 v2 s1 s2 f seed
    (σ σ' : world) :
  _generate_single_instance cfg d n m v1 v2 s1 s2 f seed σ = (inr true, σ') →
  ∃ w_min w_max s_min s_max dr asg,
    accepted_instance cfg d n m w_min w_max s_min s_max f seed σ' dr asg ∧
    let table := class_table m (classes dr) (setup_costs dr) (setups dr) in
    (f = 0 → bin_cost dr = 1 ∧ Forall (λ r, r.1.1 = 0) table) ∧
    (f = 1 → bin_cost dr = 10 ∧ Forall (λ r, 1 ≤ r.1.1 ≤ 5) table).
Proof.
  intros Hrun.
  apply generate_single_instance_inv in Hrun
    as (w_min & w_max & s_min & s_max & dr & asg & Hb & Hacc).
  exists w_min, w_max, s_min, s_max, dr, asg. split; [done|].
  destruct Hacc as [(k & costs & sws & σa & σb & _ & Hdr) _ _ _].
  destruct Hdr as [_ _ _ _ _ _ Hbc _ _ _ Hsc _ _ _].
  cbv zeta. split; intros ->; (split; [done|]).
  all: apply class_table_Forall; intros i Hi; simpl.
  all: by destruct (Hsc i Hi) as (c & -> & Hc).
Qed.

Lemma setup_costs_by_flag_witness :
  example_run 1 = (inr true, (example_run 1).2) ∧
  ∃ w_min w_max s_min s_max dr asg,
    accepted_instance example_cfg 200 10 5 w_min w_max s_min s_max 1 0
      (example_run 1).2 dr asg ∧
    let table := class_table 5 (classes dr) (setup_costs dr) (setups dr) in
    (1 = 0 → bin_cost dr = 1 ∧ Forall (λ r, r.1.1 = 0) table) ∧
    (1 = 1 → bin_cost dr = 10 ∧ Forall (λ r, 1 ≤ r.1.1 ≤ 5) table).
Proof.
  assert (example_run 1 = (inr true, (example_run 1).2)) as Hrun
    by (apply run_pair; vm_compute; reflexivity).
  split; [exact Hrun|]. exact (setup_costs_by_flag _ _ _ _ _ _ _ _ _ _ _ _ Hrun).
Defined.

(** C7: in every accepted instance (of a non-negative item count [n]) the
    item counts on the class lines add up to [n], and the file body holds
    [n] weight lines. *)
Theorem item_counts_add_up {G : RandomSource} cfg d n m v1 v2 s1 s2 f seed
    (σ σ' : world) :
  0 ≤ n →
  _generate_single_instance cfg d n m v1 v2 s1 s2 f seed σ = (inr true, σ') →
  ∃ w_min w_max s_min s_max dr asg,
    accepted_instance cfg d n m w_min w_max s_min s_max f seed σ' dr asg ∧
    let table := class_table m (classes dr) (setup_costs dr) (setups dr) in
    foldr (λ r acc, r.2 + acc) 0 (class_records table) = n ∧
    Z.of_nat (length (weight_lines table)) = n.
Proof.
  intros Hn Hrun.
  apply generate_single_instance_inv in Hrun
    as (w_min & w_max & s_min & s_max & dr & asg & Hb & Hacc).
  exists w_min, w_max, s_min, s_max, dr, asg. split; [done|].
  destruct Hacc as [(k & costs & sws & σa & σb & _ & Hdr) _ _ _].
  cbv zeta. unfold weight_lines.
  rewrite class_records_total, length_fmap.
  rewrite (class_table_weights m dr asg) by by destruct Hdr.
  rewrite (select_concat_length m w_min w_max) by by destruct Hdr.
  rewrite (df_asg_len _ _ _ _ _ _ _ _ _ _ _ _ _ _ Hdr). lia.
Qed.

Lemma item_counts_add_up_witness :
  0 ≤ 10 ∧ example_run 0 = (inr true, (example_run 0).2) ∧
  ∃ w_min w_max s_min s_max dr asg,
    accepted_instance example_cfg 200 10 5 w_min w_max s_min s_max 0 0
      (example_run 0).2 dr asg ∧
    let table := class_table 5 (classes dr) (setup_costs dr) (setups dr) in
    foldr (λ r acc, r.2 + acc) 0 (class_records table) = 10 ∧
    Z.of_nat (length (weight_lines table)) = 10.
Proof.
  assert (example_run 0 = (inr true, (example_run 0).2)) as Hrun
    by (apply run_pair; vm_compute; reflexivity).
  split; [lia|]. split; [exact Hrun|].
  refine (item_counts_add_up _ _ _ _ _ _ _ _ _ _ _ _ _ Hrun). lia.
Defined.

(** C9: with [min_items_per_class >= 1], every file the builder writes
    holds exactly [m] class lines: no class of an accepted instance is
    empty, so none is left out. *)
Theorem all_classes_listed {G : RandomSource} cfg d n m v1 v2 s1 s2 f seed
    (σ σ' : world) :
  1 ≤ min_items_per_class cfg →
  _generate_single_instance cfg d n m v1 v2 s1 s2 f seed σ = (inr true, σ') →
  ∃ w_min w_max s_min s_max dr asg,
    accepted_instance cfg d n m w_min w_max s_min s_max f seed σ' dr asg ∧
    let table := class_table m (classes dr) (setup_costs dr) (setups dr) in
    Z.of_nat (length (class_lines table)) = m ∧
    filter (λ r, r.2 ≠ []) table = table.
Proof.
  intros Hmin Hrun.
  apply generate_single_instance_inv in Hrun
    as (w_min & w_max & s_min & s_max & dr & asg & Hb & Hacc).
  exists w_min, w_max, s_min, s_max, dr, asg. split; [done|].
  destruct Hacc as [(k & costs & sws & σa & σb & _ & Hdr) Hm Hsz _].
  cbv zeta.
  assert (Forall (λ r : Z * Z * list Z, r.2 ≠ [])
            (class_table m (classes dr) (setup_costs dr) (setups dr))) as Hall.
  { apply class_table_Forall. intros i Hi. simpl.
    rewrite (df_classes _ _ _ _ _ _ _ _ _ _ _ _ _ _ Hdr i Hi). simpl.
    specialize (Hsz i Hi). intros Hnil. rewrite Hnil in Hsz. simpl in Hsz. lia. }
  split.
  - unfold class_lines. rewrite length_fmap, class_records_all by done.
    unfold class_table, range. rewrite length_fmap, length_seqZ. lia.
  - clear -Hall. induction Hall as [|r t Hr Hall IH]; [done|].
    by rewrite filter_cons_True, IH.
Qed.

Lemma all_classes_listed_witness :
  1 ≤ min_items_per_class example_cfg ∧
  example_run 0 = (inr true, (example_run 0).2) ∧
  ∃ w_min w_max s_min s_max dr asg,
    accepted_instance example_cfg 200 10 5 w_min w_max s_min s_max 0 0
      (example_run 0).2 dr asg ∧
    let table := class_table 5 (classes dr) (setup_costs dr) (setups dr) in
    Z.of_nat (length (class_lines table)) = 5 ∧
    filter (λ r, r.2 ≠ []) table = table.
Proof.
  assert (example_run 0 = (inr true, (example_run 0).2)) as Hrun
    by (apply run_pair; vm_compute; reflexivity).
  split; [simpl; lia|]. split; [exact Hrun|].
  refine (all_classes_listed _ _ _ _ _ _ _ _ _ _ _ _ _ Hrun). simpl. lia.
Defined.

(** * The calls made to the random source *)

Lemma draws_of_app t1 t2 : draws_of (t1 ++ t2) = draws_of t1 ++ draws_of t2.
Proof. apply omap_app. Qed.

Lemma seeds_of_app t1 t2 : seeds_of (t1 ++ t2) = seeds_of t1 ++ seeds_of t2.
Proof. apply omap_app. Qed.

Lemma seeds_of_seed s t : seeds_of (EvSeed s :: t) = s :: seeds_of t.
Proof. reflexivity. Qed.

Lemma draws_of_randint a b v t :
  draws_of (EvRandint a b v :: t) = (a, b) :: draws_of t ∧
  seeds_of (EvRandint a b v :: t) = seeds_of t.
Proof. split; reflexivity. Qed.

Lemma draws_of_randints a b vs :
  draws_of (EvRandint a b <$> vs) = replicate (length vs) (a, b) ∧
  seeds_of (EvRandint a b <$> vs) = [].
Proof.
  induction vs as [|v vs [IH1 IH2]]; [done|].
  rewrite fmap_cons. destruct (draws_of_randint a b v (EvRandint a b <$> vs))
    as [-> ->]. by rewrite IH1, IH2.
Qed.

Lemma draws_of_items m w_min w_max asg :
  draws_of (item_events m w_min w_max asg)
    = mjoin (replicate (length asg) [(0, m - 1); (w_min, w_max)]) ∧
  seeds_of (item_events m w_min w_max asg) = [].
Proof.
  induction asg as [|p asg [IH1 IH2]]; [done|].
  change (item_events m w_min w_max (p :: asg))
    with (EvRandint 0 (m - 1) p.1 :: EvRandint w_min w_max p.2
            :: item_events m w_min w_max asg).
  destruct (draws_of_randint 0 (m - 1) p.1
    (EvRandint w_min w_max p.2 :: item_events m w_min w_max asg)) as [-> ->].
  destruct (draws_of_randint w_min w_max p.2 (item_events m w_min w_max asg))
    as [-> ->].
  by rewrite IH1, IH2.
Qed.


Section trace_facts.
Context {G : RandomSource}.

Lemma drawn_from_trace n m w_min w_max s_min s_max f sk costs asg sws
    (σ σ' : world) dr :
  drawn_from n m w_min w_max s_min s_max f sk costs asg sws σ σ' dr →
  ∃ tr, trace σ' = trace σ ++ EvSeed sk :: tr ∧
    draws_of tr = code_draw_order n m w_min w_max s_min s_max f ∧
    seeds_of tr = [].
Proof.
  intros [_ Htr Hc Ha Hs _ _ _ _ _ _ _ _ _]. eexists. split; [exact Htr|].
  destruct (draws_of_randints 1 5 costs) as [Hd1 Hs1].
  destruct (draws_of_items m w_min w_max asg) as [Hd2 Hs2].
  destruct (draws_of_randints s_min s_max sws) as [Hd3 Hs3].
  rewrite !draws_of_app, !seeds_of_app, Hd1, Hd2, Hd3, Hs1, Hs2, Hs3.
  split; [|done]. unfold code_draw_order. rewrite Hc, Ha, Hs.
  by case_decide.
Qed.

Lemma attempt_loop_trace cfg d n m w_min w_max s_min s_max f seed
    remaining k (σ σ' : world) b :
  attempt_loop cfg d n m w_min w_max s_min s_max f seed remaining k σ
    = (inr b, σ') →
  ∃ trs, trace σ' = trace σ ++ attempts_trace seed k trs ∧
    Forall (λ tr, draws_of tr = code_draw_order n m w_min w_max s_min s_max f
                  ∧ seeds_of tr = []) trs ∧
    (length trs ≤ remaining)%nat ∧
    (b = false → length trs = remaining).
Proof.
  revert k σ. induction remaining as [|r IH]; intros k σ Hrun.
  - apply ret_ok_inv in Hrun as [-> ->]. exists []. simpl.
    by rewrite app_nil_r.
  - simpl in Hrun.
    apply bind_ok_inv in Hrun as (dr & σ1 & Hdraw & Hrun).
    apply bind_ok_inv in Hrun as (mn & σ2 & Hmin & Hrun).
    apply draw_instance_inv in Hdraw as (costs & asg & sws & Hdr).
    apply (min_class_size_inv _ _ (λ i, select i asg)) in Hmin as [-> Hmin];
      [| by destruct Hdr].
    apply drawn_from_trace in Hdr as (tr & Htr & Hd & Hs).
    case_decide as Hacc.
    + apply bind_ok_inv in Hrun as ([] & σ3 & Hwrite & Hrun).
      apply ret_ok_inv in Hrun as [-> ->].
      apply write_instance_file_inv in Hwrite as (_ & Htr3 & _).
      exists [tr]. simpl. rewrite app_nil_r, Htr3, Htr.
      split_and!; [done | by repeat constructor | lia | done].
    + apply IH in Hrun as (trs & Htr' & Hall & Hlen & Hb).
      exists (tr :: trs). simpl. rewrite Htr', Htr, <- app_assoc. simpl.
      split_and!; [done | by constructor | lia | intros; f_equal; auto].
Qed.
End trace_facts.

(** C1 (amended): in every pass of the builder the random source is reseeded
    with [base_seed + k] and then asked, in this order, for one setup cost
    in [1, 5] per class when the flag is set (none when [f = 0]), then for
    each item a class index in [0, m-1] followed by a weight in
    [w_min, w_max], then one setup weight in [s_min, s_max] per class. *)
Theorem draws_in_source_order {G : RandomSource} cfg d n m v1 v2 s1 s2 f seed
    (σ σ' : world) b :
  _generate_single_instance cfg d n m v1 v2 s1 s2 f seed σ = (inr b, σ') →
  ∃ w_min w_max s_min s_max trs,
    derive_bounds d v1 v2 s1 s2 = inr (w_min, w_max, s_min, s_max) ∧
    trace σ' = trace σ ++ attempts_trace seed 0 trs ∧
    Forall (λ tr, draws_of tr = code_draw_order n m w_min w_max s_min s_max f
                  ∧ seeds_of tr = []) trs.
Proof.
  unfold _generate_single_instance. intros Hrun.
  apply bind_ok_inv in Hrun as ([[[w_min w_max] s_min] s_max] & σ1 & Hb & Hrun).
  apply lift_ok_inv in Hb as [Hb ->].
  apply attempt_loop_trace in Hrun as (trs & Htr & Hall & _).
  by exists w_min, w_max, s_min, s_max, trs.
Qed.

Lemma draws_in_source_order_witness :
  example_run 1 = (inr true, (example_run 1).2) ∧
  ∃ w_min w_max s_min s_max trs,
    derive_bounds 200 (literal 5 2) (literal 15 2) (literal 1 2) (literal 10 2)
      = inr (w_min, w_max, s_min, s_max) ∧
    trace (example_run 1).2 = trace start_world ++ attempts_trace 0 0 trs ∧
    Forall (λ tr, draws_of tr = code_draw_order 10 5 w_min w_max s_min s_max 1
                  ∧ seeds_of tr = []) trs.
Proof.
  assert (example_run 1 = (inr true, (example_run 1).2)) as Hrun
    by (apply run_pair; vm_compute; reflexivity).
  split; [exact Hrun|]. exact (draws_in_source_order _ _ _ _ _ _ _ _ _ _ _ _ _ Hrun).
Defined.

(** C1 as the documentation states it fails on the example with [f = 1]:
    the first pass asks for a setup cost in [1, 5] right after reseeding,
    where the stated order starts with a class index in [0, 4]. *)
Lemma draws_in_spec_order_counterexample :
  ¬ ∃ trs,
      trace (example_run 1).2 = trace start_world ++ attempts_trace 0 0 trs ∧
      Forall (λ tr, draws_of tr = spec_draw_order 10 5 10 30 2 20 1
                    ∧ seeds_of tr = []) trs.
Proof.
  intros (trs & Htr & Hall).
  assert (draws_of (take 2 (trace (example_run 1).2)) = [(1, 5)]) as Htake
    by (vm_compute; reflexivity).
  rewrite Htr in Htake. clear Htr. simpl in Htake.
  destruct trs as [|tr trs]; [done|].
  apply Forall_cons in Hall as [[Hd _] _].
  destruct tr as [|ev tr]; [done|].
  destruct ev as [s|a b v]; [done|].
  vm_compute in Hd. vm_compute in Htake. congruence.
Qed.

(** * Infeasible parameter tuples *)



Section totality.
Context {G : RandomSource}.

Lemma dict_getM_ok {V} (dc : dict V) k (σ : world) :
  k ∈ dict_keys dc → ∃ v, dict_getM dc k σ = (inr v, σ).
Proof.
  intros [v Hv]%dict_get_key. exists v. unfold dict_getM. by rewrite Hv.
Qed.

Lemma setup_costs_ok (m f : Z) (σ : world) :
  ∃ scbc σ',
    (if decide (f = 0) then mret (dict_comp (λ _, 0) (range m), 1)
     else sc ← dict_compM (λ _, randint 1 5) (range m); mret (sc, 10)) σ
      = (inr scbc, σ').
Proof.
  case_decide; [by eexists _, _|].
  destruct (foldM_ok (λ (dc : dict Z) (k : Z),
      v ← randint 1 5; mret (dict_set dc k v)) (λ _ _, True) (range m) [] σ)
    as (sc & σ' & Hsc & _); [done | |].
  - intros k dc σ1 _ _. destruct (randint_ok 1 5 σ1) as (v & σ2 & Hv); [lia|].
    exists (dict_set dc k v), σ2. by rewrite (bind_ok _ _ _ _ _ Hv).
  - exists (sc, 10), σ'. unfold dict_compM. by rewrite (bind_ok _ _ _ _ _ Hsc).
Qed.

Lemma assign_items_ok (n m w_min w_max : Z) classes0 (σ : world) :
  0 < m → w_min ≤ w_max → dict_keys classes0 = range m →
  ∃ cls σ',
    foldM (λ (classes : dict (list Z)) (_ : Z),
        class_id ← randint 0 (m - 1);
        item_weight ← randint w_min w_max;
        ws ← dict_getM classes class_id;
        mret (dict_set classes class_id (ws ++ [item_weight])))
      classes0 (range n) σ = (inr cls, σ') ∧
    dict_keys cls = range m.
Proof.
  intros Hm Hw Hkeys.
  apply (foldM_ok _ (λ cls _, dict_keys cls = range m)); [done|].
  intros _ cls σ1 _ Hk.
  destruct (randint_ok 0 (m - 1) σ1) as (c & σ2 & Hc); [lia|].
  destruct (randint_ok w_min w_max σ2) as (w & σ3 & Hw'); [done|].
  pose proof (randint_ok_inv _ _ _ _ _ Hc) as (Hcr & _).
  assert (c ∈ dict_keys cls) as Hin by (rewrite Hk; by apply elem_of_range).
  destruct (dict_getM_ok cls c σ3 Hin) as (ws & Hws).
  exists (dict_set cls c (ws ++ [w])), σ3. split.
  - rewrite (bind_ok _ _ _ _ _ Hc), (bind_ok _ _ _ _ _ Hw').
    by rewrite (bind_ok _ _ _ _ _ Hws).
  - by rewrite dict_set_keys_known.
Qed.

Lemma flatten_items_ok (cls : dict (list Z)) (σ : world) :
  ∃ its σ',
    foldM (λ items cl, ws ← dict_getM cls cl; mret (items ++ ws))
      [] (dict_keys cls) σ = (inr its, σ').
Proof.
  destruct (foldM_ok (λ items cl, ws ← dict_getM cls cl; mret (items ++ ws))
      (λ _ _, True) (dict_keys cls) [] σ) as (its & σ' & Hits & _);
    [done | | by eauto].
  intros cl its σ1 Hcl _. destruct (dict_getM_ok cls cl σ1 Hcl) as (ws & Hws).
  exists (its ++ ws), σ1. by rewrite (bind_ok _ _ _ _ _ Hws).
Qed.

Lemma draw_setups_ok (s_min s_max : Z) setups0 ks (σ : world) :
  s_min ≤ s_max →
  ∃ st σ',
    foldM (λ (setups : dict Z) cl,
        setup_weight ← randint s_min s_max;
        mret (dict_set setups cl setup_weight))
      setups0 ks σ = (inr st, σ').
Proof.
  intros Hs.
  destruct (foldM_ok (λ (setups : dict Z) cl,
        setup_weight ← randint s_min s_max;
        mret (dict_set setups cl setup_weight))
      (λ _ _, True) ks setups0 σ) as (st & σ' & Hst & _);
    [done | | by eauto].
  intros cl st σ1 _ _. destruct (randint_ok s_min s_max σ1) as (v & σ2 & Hv);
    [done|].
  exists (dict_set st cl v), σ2. by rewrite (bind_ok _ _ _ _ _ Hv).
Qed.


Lemma min_class_size_ok (m : Z) (cls : dict (list Z)) (σ : world) :
  0 < m → dict_keys cls = range m →
  ∃ mn, min_class_size m cls σ = (inr mn, σ).
Proof.
  intros Hm Hkeys. unfold min_class_size.
  destruct (foldM_ok (λ sizes i,
        ws ← dict_getM cls i; mret (sizes ++ [Z.of_nat (length ws)]))
      (λ _ σ1, σ1 = σ) (range m) [] σ) as (sizes & σ' & Hsizes & ->); [done | |].
  - intros i sizes σ1 Hi ->.
    destruct (dict_getM_ok cls i σ) as (ws & Hws); [by rewrite Hkeys|].
    exists (sizes ++ [Z.of_nat (length ws)]), σ.
    by rewrite (bind_ok _ _ _ _ _ Hws).
  - rewrite (bind_ok _ _ _ _ _ Hsizes).
    eapply (foldM_inv _ (λ done sizes _, length sizes = length done))
      in Hsizes; [| done |].
    + unfold range in Hsizes. rewrite length_seqZ in Hsizes.
      destruct sizes as [|x sizes]; [simpl in Hsizes; lia|]. by eexists.
    + intros done i rest sz σ1 sz1 σ2 _ Hlen Hstep.
      apply bind_ok_inv in Hstep as (ws & σ3 & _ & Hstep).
      apply ret_ok_inv in Hstep as [-> _]. rewrite !length_app, Hlen. done.
Qed.
End totality.

Section sweep_facts.
Context {G : RandomSource}.

Lemma foldM_bind_list {A B C} (f : C → B → M C) (g : A → list B) l acc σ :
  foldM (λ acc a, foldM f acc (g a)) acc l σ = foldM f acc (l ≫= g) σ.
Proof.
  revert acc σ. induction l as [|a l IH]; intros acc σ; [done|].
  rewrite bind_cons, foldM_app. simpl. rewrite !bind_run.
  destruct (foldM f acc (g a) σ) as [[e|acc1] σ1]; [done|]. apply IH.
Qed.

Lemma foldM_singletons {A B C} (f : C → B → M C) (h : A → B) l acc σ :
  foldM (λ acc a, f acc (h a)) acc l σ = foldM f acc (l ≫= λ a, [h a]) σ.
Proof.
  revert acc σ. induction l as [|a l IH]; intros acc σ; [done|].
  rewrite bind_cons. simpl. rewrite !bind_run.
  destruct (f acc (h a) σ) as [[e|acc1] σ1]; [done|]. apply IH.
Qed.

(** The nested loops visit the cross product in order. *)
Lemma sweep_flat cfg acc σ :
  sweep cfg acc σ = foldM (sweep_body cfg) acc (combinations cfg) σ.
Proof.
  unfold sweep, combinations.
  rewrite <- foldM_bind_list. apply foldM_ext. clear. intros acc m σ.
  rewrite <- foldM_bind_list. apply foldM_ext. clear acc σ. intros acc n σ.
  rewrite <- foldM_bind_list. apply foldM_ext. clear acc σ. intros acc d σ.
  rewrite <- foldM_bind_list. apply foldM_ext. clear acc σ. intros acc [v1 v2] σ.
  rewrite <- foldM_bind_list. apply foldM_ext. clear acc σ. intros acc [s1 s2] σ.
  rewrite <- foldM_bind_list. apply foldM_ext. clear acc σ. intros acc f σ.
  by rewrite <- foldM_singletons.
Qed.


End sweep_facts.



(** * Determinism *)

Section determinism.
Context {G : RandomSource}.

Lemma rng_only_ret {A} (a : A) : rng_only (mret a).
Proof. by intros σ1 σ2 Hr. Qed.

Lemma rng_only_raise {A} (e : exn) : rng_only (raise (A:=A) e).
Proof. by intros σ1 σ2 Hr. Qed.

Lemma rng_only_lift {A} (r : exn + A) : rng_only (lift r).
Proof. by intros σ1 σ2 Hr. Qed.

Lemma rng_only_bind {A B} (c : M A) (k : A → M B) :
  rng_only c → (∀ a, rng_only (k a)) → rng_only (c ≫= k).
Proof.
  intros Hc Hk σ1 σ2 Hr. rewrite !bind_run.
  destruct (Hc σ1 σ2 Hr) as [Hres Hrng].
  destruct (c σ1) as [[e1|a1] σ1'], (c σ2) as [[e2|a2] σ2']; simplify_eq/=;
    [done|]. by apply Hk.
Qed.

Lemma rng_only_foldM {A B} (f : B → A → M B) l b :
  (∀ b a, rng_only (f b a)) → rng_only (foldM f b l).
Proof.
  intros Hf. revert b. induction l as [|a l IH]; intros b; simpl.
  - apply rng_only_ret.
  - apply rng_only_bind; auto.
Qed.

Lemma rng_only_randint a b : rng_only (randint a b).
Proof.
  intros σ1 σ2 Hr. unfold randint. rewrite Hr. case_decide; [done|].
  by destruct (rng_randint a b (rng σ2)).
Qed.

Lemma rng_only_dict_getM {V} (dc : dict V) k : rng_only (dict_getM dc k).
Proof.
  unfold dict_getM. destruct (dict_get dc k);
    [apply rng_only_ret | apply rng_only_raise].
Qed.

Lemma rng_only_file_open path : rng_only (file_open path).
Proof. by intros σ1 σ2 Hr. Qed.

Lemma rng_only_file_write path s : rng_only (file_write path s).
Proof. by intros σ1 σ2 Hr. Qed.

Create HintDb rng_only discriminated.
#[local] Hint Resolve rng_only_ret rng_only_raise rng_only_lift rng_only_randint
  rng_only_dict_getM rng_only_file_open rng_only_file_write : rng_only.
#[local] Hint Extern 2 (rng_only (_ ≫= _)) =>
  apply rng_only_bind; [| intros ?] : rng_only.
#[local] Hint Extern 2 (rng_only (foldM _ _ _)) =>
  apply rng_only_foldM; intros ? ? : rng_only.
#[local] Hint Extern 3 (rng_only (if decide _ then _ else _)) =>
  case_decide : rng_only.
#[local] Hint Extern 3 (rng_only (let '(_, _) := ?p in _)) =>
  destruct p : rng_only.

Lemma rng_only_min_class_size m cls : rng_only (min_class_size m cls).
Proof. unfold min_class_size. auto 10 with rng_only. Qed.

Lemma rng_only_write_instance_file cfg d n m w_min w_max s_min s_max f seed
    bc cls sc st its :
  rng_only (_write_instance_file cfg d n m w_min w_max s_min s_max f seed
              bc cls sc st its).
Proof. unfold _write_instance_file. auto 12 with rng_only. Qed.

(** A pass reseeds first: what it draws does not depend on the world it
    starts in. *)
Lemma draw_instance_seeded n m w_min w_max s_min s_max f sk (σ1 σ2 : world) :
  (draw_instance n m w_min w_max s_min s_max f sk σ1).1
    = (draw_instance n m w_min w_max s_min s_max f sk σ2).1 ∧
  rng (draw_instance n m w_min w_max s_min s_max f sk σ1).2
    = rng (draw_instance n m w_min w_max s_min s_max f sk σ2).2.
Proof.
  unfold draw_instance. rewrite !bind_run.
  change (random_seed sk σ1) with (inr (A:=exn) (), (random_seed sk σ1).2).
  change (random_seed sk σ2) with (inr (A:=exn) (), (random_seed sk σ2).2).
  cbv iota beta zeta.
  match goal with |- (?c _).1 = _ ∧ _ => assert (rng_only c) as Hc end;
    [| by apply Hc].
  apply rng_only_bind.
  { case_decide; [apply rng_only_ret|]. unfold dict_compM.
    auto 10 with rng_only. }
  intros [sc bc]. auto 20 with rng_only.
Qed.

Lemma attempt_loop_deterministic cfg d n m w_min w_max s_min s_max f seed
    remaining k (σ1 σ2 : world) :
  let r1 := attempt_loop cfg d n m w_min w_max s_min s_max f seed
              remaining k σ1 in
  let r2 := attempt_loop cfg d n m w_min w_max s_min s_max f seed
              remaining k σ2 in
  r1.1 = r2.1 ∧
  (r1.1 = inr true → ∃ content,
     files r1.2 !! (output_directory cfg,
                    _generate_filename d n m w_min w_max s_min s_max f seed)
       = Some content ∧
     files r2.2 !! (output_directory cfg,
                    _generate_filename d n m w_min w_max s_min s_max f seed)
       = Some content).
Proof.
  cbv zeta. revert k σ1 σ2.
  induction remaining as [|r IH]; intros k σ1 σ2; [done|].
  cbn [attempt_loop]. rewrite !bind_run.
  destruct (draw_instance_seeded n m w_min w_max s_min s_max f (seed + k) σ1 σ2)
    as [Hres Hrng].
  destruct (draw_instance _ _ _ _ _ _ _ _ σ1) as [[e1|dr] σ1a],
    (draw_instance _ _ _ _ _ _ _ _ σ2) as [[e2|dr2] σ2a]; simpl in Hres, Hrng;
    [by simplify_eq/= | done | done | injection Hres as <-].
  rewrite !bind_run.
  destruct (rng_only_min_class_size m (classes dr) σ1a σ2a Hrng)
    as [Hres' Hrng'].
  destruct (min_class_size m (classes dr) σ1a) as [[e1|mn] σ1b],
    (min_class_size m (classes dr) σ2a) as [[e2|mn2] σ2b];
    simpl in Hres', Hrng';
    [by simplify_eq/= | done | done | injection Hres' as <-].
  case_decide; [|apply IH].
  rewrite !bind_run.
  destruct (rng_only_write_instance_file cfg d n m w_min w_max s_min s_max
              f seed (bin_cost dr) (classes dr) (setup_costs dr) (setups dr)
              (items dr) σ1b σ2b Hrng') as [Hres'' _].
  destruct (_write_instance_file _ _ _ _ _ _ _ _ _ _ _ _ _ _ _ σ1b)
    as [[e1|[]] σ1c] eqn:Hw1,
    (_write_instance_file _ _ _ _ _ _ _ _ _ _ _ _ _ _ _ σ2b)
    as [[e2|[]] σ2c] eqn:Hw2; simpl in Hres'';
    [by simplify_eq/= | done | done | ].
  split; [done|]. intros _.
  apply write_instance_file_inv in Hw1 as (_ & _ & Hf1).
  apply write_instance_file_inv in Hw2 as (_ & _ & Hf2).
  eexists. unfold mret, M_ret. cbn [snd].
  by rewrite Hf1, Hf2, !lookup_insert_eq.
Qed.
End determinism.



(** * The sweep and its statistics *)

Section statistics_facts.
Context {G : RandomSource}.

Lemma sweep_body_inv cfg acc t (σ σ' : world) acc' :
  sweep_body cfg acc t σ = (inr acc', σ') →
  total_instances acc' = total_instances acc + 1 ∧
  successful_instances acc' + Z.of_nat (length (failed_instances acc'))
    = successful_instances acc + Z.of_nat (length (failed_instances acc)) + 1.
Proof.
  unfold sweep_body. intros Hrun.
  apply bind_ok_inv in Hrun as ([] & σ1 & _ & Hrun).
  - apply bind_ok_inv in Hrun as (b & σ2 & _ & Hrun).
    apply ret_ok_inv in Hrun as [-> _]. simpl. lia.
  - apply ret_ok_inv in Hrun as [-> _]. simpl. rewrite length_app. simpl. lia.
Qed.

Lemma sweep_counts cfg acc l (σ σ' : world) acc' :
  foldM (sweep_body cfg) acc l σ = (inr acc', σ') →
  total_instances acc' = total_instances acc + Z.of_nat (length l) ∧
  successful_instances acc' + Z.of_nat (length (failed_instances acc'))
    = successful_instances acc + Z.of_nat (length (failed_instances acc))
      + Z.of_nat (length l).
Proof.
  intros Hrun.
  eapply (foldM_inv _ (λ done acc1 _,
      total_instances acc1 = total_instances acc + Z.of_nat (length done) ∧
      successful_instances acc1 + Z.of_nat (length (failed_instances acc1))
        = successful_instances acc + Z.of_nat (length (failed_instances acc))
          + Z.of_nat (length done))) in Hrun; [done | simpl; lia |].
  clear. intros done t rest acc1 σ1 acc2 σ2 _ [Ht Hs] Hstep.
  apply sweep_body_inv in Hstep as [Ht' Hs']. rewrite length_app. simpl. lia.
Qed.

Lemma make_statistics_inv acc stats :
  make_statistics acc = inr stats →
  total_attempted stats = total_instances acc ∧
  successful stats = successful_instances acc ∧
  failed stats = Z.of_nat (length (failed_instances acc)) ∧
  stat_failed_instances stats = failed_instances acc ∧
  if decide (0 < total_instances acc)
  then ∃ q h, int_truediv (successful_instances acc) (total_instances acc)
                = inr q ∧ of_int 100 = inr h ∧
              success_rate stats = PyFloat (mul q h)
  else success_rate stats = PyInt 0.
Proof.
  unfold make_statistics. case_decide.
  - destruct (int_truediv _ _) as [e|q]; [done|].
    destruct (of_int 100) as [e|h]; [done|]. intros [= <-]. simpl.
    split_and!; eauto.
  - by intros [= <-].
Qed.
End statistics_facts.

(** C10: the statistics a sweep returns count every combination once, as a
    success or as a failure, and carry
    [success_rate = successful / total_attempted * 100] (float division, then
    float product), or the integer 0 when nothing was attempted; with 3
    combinations of which 1 failed they read 3, 2, 1 and a rate within
    0.005 of 66.67. *)
Theorem returned_statistics {G : RandomSource} cfg (σ σ' : world) stats :
  generate_instances cfg σ = (inr stats, σ') →
  total_attempted stats = Z.of_nat (length (combinations cfg)) ∧
  total_attempted stats = successful stats + failed stats ∧
  (if decide (0 < total_attempted stats)
   then ∃ q h, int_truediv (successful stats) (total_attempted stats) = inr q ∧
               of_int 100 = inr h ∧ success_rate stats = PyFloat (mul q h)
   else success_rate stats = PyInt 0) ∧
  (total_attempted stats = 3 → failed stats = 1 →
   successful stats = 2 ∧
   ∃ x, success_rate stats = PyFloat x ∧ scaled_between 66665 66675 1000 x).
Proof.
  unfold generate_instances. intros Hrun.
  apply bind_ok_inv in Hrun as (acc & σ1 & Hsweep & Hrun).
  apply lift_ok_inv in Hrun as [Hstats ->].
  rewrite sweep_flat in Hsweep. apply sweep_counts in Hsweep as [Ht Hs].
  apply make_statistics_inv in Hstats as (Ht' & Hs' & Hf' & _ & Hrate).
  simpl in Ht, Hs. rewrite <- Ht', <- Hs' in Hrate.
  split_and!; [lia | lia | done |].
  intros H3 H1. assert (successful stats = 2) as H2 by lia.
  split; [done|]. rewrite H3, H2 in Hrate. simpl in Hrate.
  destruct Hrate as (q & h & Hq & Hh & ->).
  vm_compute in Hq. vm_compute in Hh. simplify_eq.
  eexists. split; [reflexivity|]. vm_compute. split; by intros [=].
Qed.

Lemma returned_statistics_witness :
  generate_instances (G:=LCG) three_cfg start_world
    = (inr three_stats, (generate_instances (G:=LCG) three_cfg start_world).2) ∧
  total_attempted three_stats = Z.of_nat (length (combinations three_cfg)) ∧
  total_attempted three_stats = successful three_stats + failed three_stats ∧
  (if decide (0 < total_attempted three_stats)
   then ∃ q h, int_truediv (successful three_stats)
                 (total_attempted three_stats) = inr q ∧
               of_int 100 = inr h ∧
               success_rate three_stats = PyFloat (mul q h)
   else success_rate three_stats = PyInt 0) ∧
  (total_attempted three_stats = 3 → failed three_stats = 1 →
   successful three_stats = 2 ∧
   ∃ x, success_rate three_stats = PyFloat x ∧
        scaled_between 66665 66675 1000 x).
Proof.
  assert (generate_instances (G:=LCG) three_cfg start_world
    = (inr three_stats, (generate_instances (G:=LCG) three_cfg start_world).2))
    as Hrun by (apply run_pair; vm_compute; reflexivity).
  split; [exact Hrun|]. exact (returned_statistics _ _ _ _ Hrun).
Defined.

(** * Malformed configurations *)

Section malformed_facts.
Context {G : RandomSource}.

(** An empty weight range stops the first pass at its first weight draw. *)
Lemma draw_instance_empty_range n m w_min w_max s_min s_max f sk (σ : world) :
  w_max < w_min → 0 < m → 0 < n →
  ∃ σ' tr,
    draw_instance n m w_min w_max s_min s_max f sk σ = (inl ValueError, σ') ∧
    trace σ' = trace σ ++ EvSeed sk :: tr ∧
    draws_of tr = (if decide (f = 0) then [] else replicate (Z.to_nat m) (1, 5))
                  ++ [(0, m - 1)] ∧
    seeds_of tr = [] ∧
    files σ' = files σ.
Proof.
  intros Hw Hm Hn. unfold draw_instance.
  erewrite bind_ok by reflexivity.
  destruct (setup_costs_ok m f (random_seed sk σ).2) as ([sc bc] & σ2 & H2).
  erewrite bind_ok by exact H2.
  apply setup_costs_inv in H2 as (costs & Hclen & Htr2 & Hfs2 & _).
  destruct (randint_ok 0 (m - 1) σ2) as (c & σ3 & Hc); [lia|].
  pose proof (randint_ok_inv _ _ _ _ _ Hc) as (_ & _ & _ & Htr3 & Hfs3).
  exists σ3, ((EvRandint 1 5 <$> costs) ++ [EvRandint 0 (m - 1) c]).
  split_and!.
  - assert (range n = 0 :: seqZ 1 (n - 1)) as ->.
    { unfold range. rewrite seqZ_cons by lia. f_equal. }
    apply bind_raise. cbn [foldM]. apply bind_raise.
    rewrite (bind_ok _ _ _ _ _ Hc). apply bind_raise.
    unfold randint. destruct (decide (w_max < w_min)); [done | lia].
  - rewrite Htr3, Htr2. simpl. by rewrite <- !app_assoc.
  - rewrite draws_of_app. destruct (draws_of_randints 1 5 costs) as [-> _].
    rewrite Hclen. by case_decide.
  - rewrite seeds_of_app. by destruct (draws_of_randints 1 5 costs) as [_ ->].
  - by rewrite Hfs3, Hfs2.
Qed.
End malformed_facts.

(** C5 (amended): a malformed configuration is not rejected before
    generation.  With an empty dimension list the sweep visits nothing and
    returns statistics of zero attempts and rate 0, the world untouched.
    Fraction pairs are never compared: a tuple whose derived item-weight
    range is empty (with an item and a class to draw) makes the builder
    raise [ValueError] in its first pass, after it has reseeded the
    generator and drawn from it, and the pass is not retried. *)
Theorem malformed_configuration_not_rejected {G : RandomSource} cfg (σ : world) :
  (combinations cfg = [] →
   generate_instances cfg σ = (inr (Statistics 0 0 0 (PyInt 0) []), σ)) ∧
  (∀ d n m v1 v2 s1 s2 f seed w_min w_max s_min s_max,
     derive_bounds d v1 v2 s1 s2 = inr (w_min, w_max, s_min, s_max) →
     w_max < w_min → 0 < m → 0 < n →
     ∃ σ' tr,
       _generate_single_instance cfg d n m v1 v2 s1 s2 f seed σ
         = (inl ValueError, σ') ∧
       trace σ' = trace σ ++ EvSeed seed :: tr ∧
       draws_of tr
         = (if decide (f = 0) then [] else replicate (Z.to_nat m) (1, 5))
           ++ [(0, m - 1)] ∧
       seeds_of tr = [] ∧
       files σ' = files σ).
Proof.
  split.
  - intros Hnone. unfold generate_instances.
    assert (sweep cfg (Counters 0 0 []) σ = (inr (Counters 0 0 []), σ)) as Hs
      by (by rewrite sweep_flat, Hnone).
    by rewrite (bind_ok _ _ _ _ _ Hs).
  - intros d n m v1 v2 s1 s2 f seed w_min w_max s_min s_max Hb Hw Hm Hn.
    destruct (draw_instance_empty_range n m w_min w_max s_min s_max f
                (seed + 0) σ Hw Hm Hn)
      as (σ' & tr & Hdraw & Htr & Hd & Hs & Hfs).
    exists σ', tr. rewrite Z.add_0_r in Htr. split_and!; try done.
    unfold _generate_single_instance.
    erewrite bind_ok by (unfold lift; by rewrite Hb).
    change (Z.to_nat max_attempts) with (S 999). cbn [attempt_loop].
    by apply bind_raise.
Qed.

Lemma malformed_configuration_not_rejected_witness :
  (combinations empty_seeds_cfg = [] ∧
   generate_instances (G:=LCG) empty_seeds_cfg start_world
     = (inr (Statistics 0 0 0 (PyInt 0) []), start_world)) ∧
  (derive_bounds 200 (literal 15 2) (literal 5 2) (literal 1 2) (literal 10 2)
     = inr (30, 10, 2, 20) ∧ 10 < 30 ∧ 0 < 5 ∧ 0 < 10 ∧
   ∃ (σ' : @world LCG) tr,
     _generate_single_instance inverted_pair_cfg 200 10 5
       (literal 15 2) (literal 5 2) (literal 1 2) (literal 10 2) 0 0 start_world
       = (inl ValueError, σ') ∧
     trace σ' = trace start_world ++ EvSeed 0 :: tr ∧
     draws_of tr
       = (if decide (0 = 0) then [] else replicate (Z.to_nat 5) (1, 5))
         ++ [(0, 5 - 1)] ∧
     seeds_of tr = [] ∧
     files σ' = files start_world).
Proof.
  assert (combinations empty_seeds_cfg = []) as H1 by reflexivity.
  assert (derive_bounds 200 (literal 15 2) (literal 5 2) (literal 1 2)
            (literal 10 2) = inr (30, 10, 2, 20)) as H2
    by (vm_compute; reflexivity).
  split.
  - split; [exact H1|].
    exact (proj1 (malformed_configuration_not_rejected (G:=LCG)
                    empty_seeds_cfg start_world) H1).
  - split; [exact H2|]. split; [lia|]. split; [lia|]. split; [lia|].
    refine (proj2 (malformed_configuration_not_rejected (G:=LCG)
                     inverted_pair_cfg start_world)
              200 10 5 (literal 15 2) (literal 5 2) (literal 1 2) (literal 10 2)
              0 0 30 10 2 20 H2 _ _ _); lia.
Defined.

(** C5 as the documentation states it fails twice over: a configuration
    with an empty seed list is malformed, and the sweep returns statistics
    instead of a configuration error; a configuration whose second fraction
    pair is inverted is malformed, and the sweep has already written the
    first tuple's instance when the [ValueError] of the second surfaces. *)
Lemma malformed_configuration_counterexample :
  (malformed empty_seeds_cfg ∧
   ∃ stats, (generate_instances (G:=LCG) empty_seeds_cfg start_world).1
              = inr stats) ∧
  (malformed inverted_pair_cfg ∧
   (generate_instances (G:=LCG) inverted_pair_cfg start_world).1
     = inl ValueError ∧
   ∃ content,
     files (generate_instances (G:=LCG) inverted_pair_cfg start_world).2
       !! ("generated_instances", "bpps_d200n10m5w10_30s2_20f0_seed0.txt")
     = Some content).
Proof.
  split.
  - split; [by right|]. eexists. vm_compute. reflexivity.
  - split_and!.
    + left. apply Exists_cons_tl, Exists_cons_hd. vm_compute. reflexivity.
    + vm_compute. reflexivity.
    + eexists. vm_compute. reflexivity.
Qed.

(** * Further properties of the builder *)

Section files_facts.
Context {G : RandomSource}.

Lemma keeps_files_ret {A} (a : A) : keeps_files (mret a).
Proof. by intros σ. Qed.

Lemma keeps_files_raise {A} (e : exn) : keeps_files (raise (A:=A) e).
Proof. by intros σ. Qed.

Lemma keeps_files_lift {A} (r : exn + A) : keeps_files (lift r).
Proof. by intros σ. Qed.

Lemma keeps_files_bind {A B} (c : M A) (k : A → M B) :
  keeps_files c → (∀ a, keeps_files (k a)) → keeps_files (c ≫= k).
Proof.
  intros Hc Hk σ. rewrite bind_run. specialize (Hc σ).
  destruct (c σ) as [[e|a] σ1]; [done|]. simpl in Hc. by rewrite Hk.
Qed.

Lemma keeps_files_foldM {A B} (f : B → A → M B) l b :
  (∀ b a, keeps_files (f b a)) → keeps_files (foldM f b l).
Proof.
  intros Hf. revert b. induction l as [|a l IH]; intros b; simpl.
  - apply keeps_files_ret.
  - apply keeps_files_bind; auto.
Qed.

Lemma keeps_files_randint a b : keeps_files (randint a b).
Proof.
  intros σ. unfold randint. case_decide; [done|].
  by destruct (rng_randint a b (rng σ)).
Qed.

Lemma keeps_files_random_seed s : keeps_files (random_seed s).
Proof. by intros σ. Qed.

Lemma keeps_files_dict_getM {V} (dc : dict V) k : keeps_files (dict_getM dc k).
Proof.
  unfold dict_getM. destruct (dict_get dc k);
    [apply keeps_files_ret | apply keeps_files_raise].
Qed.

Create HintDb keeps_files discriminated.
#[local] Hint Resolve keeps_files_ret keeps_files_raise keeps_files_lift
  keeps_files_randint keeps_files_random_seed keeps_files_dict_getM
  : keeps_files.
#[local] Hint Extern 2 (keeps_files (_ ≫= _)) =>
  apply keeps_files_bind; [| intros ?] : keeps_files.
#[local] Hint Extern 2 (keeps_files (foldM _ _ _)) =>
  apply keeps_files_foldM; intros ? ? : keeps_files.

Lemma keeps_files_min_class_size m cls : keeps_files (min_class_size m cls).
Proof. unfold min_class_size. auto 10 with keeps_files. Qed.

Lemma keeps_files_draw_instance n m w_min w_max s_min s_max f sk :
  keeps_files (draw_instance n m w_min w_max s_min s_max f sk).
Proof.
  unfold draw_instance. cbv zeta.
  apply keeps_files_bind; [apply keeps_files_random_seed|]. intros _.
  apply keeps_files_bind.
  { case_decide; [apply keeps_files_ret|]. unfold dict_compM.
    auto 10 with keeps_files. }
  intros [sc bc]. auto 20 with keeps_files.
Qed.

(** The writer finds every key it looks up in dictionaries keyed by
    [range m]. *)
Lemma write_instance_file_ok cfg d n m w_min w_max s_min s_max f seed bc
    (cls : dict (list Z)) (sc st : dict Z) its (σ : world) :
  dict_keys cls = range m → dict_keys sc = range m → dict_keys st = range m →
  ∃ σ', _write_instance_file cfg d n m w_min w_max s_min s_max f seed bc
          cls sc st its σ = (inr (), σ').
Proof.
  intros Hcls Hsc Hst. unfold _write_instance_file.
  erewrite bind_ok by reflexivity. erewrite bind_ok by reflexivity.
  set (path := (output_directory cfg, _)).
  match goal with |- ∃ σ', (foldM ?f () (range m) ≫= _) ?σ1 = _ =>
    destruct (foldM_ok f (λ _ _, True) (range m) () σ1)
      as ([] & σ2 & Hloop & _); [done | |] end.
  - intros i [] σi Hi _.
    destruct (dict_getM_ok cls i σi) as (ws & Hws); [by rewrite Hcls|].
    rewrite (bind_ok _ _ _ _ _ Hws). case_decide; [by eexists _, _|].
    destruct (dict_getM_ok sc i σi) as (c & Hc); [by rewrite Hsc|].
    destruct (dict_getM_ok st i σi) as (w & Hw); [by rewrite Hst|].
    rewrite (bind_ok _ _ _ _ _ Hc), (bind_ok _ _ _ _ _ Hw).
    by eexists (), _.
  - rewrite (bind_ok _ _ _ _ _ Hloop).
    match goal with |- ∃ σ', foldM ?f () its ?σ1 = _ =>
      destruct (foldM_ok f (λ _ _, True) its () σ1)
        as ([] & σ3 & Hits & _); [done | | by eauto] end.
    intros w [] σi _ _. by eexists (), _.
Qed.

(** What a call of the retry loop does to the files: one entry set on
    success, nothing otherwise. *)
Lemma attempt_loop_files cfg d n m w_min w_max s_min s_max f seed
    remaining k (σ : world) :
  let r := attempt_loop cfg d n m w_min w_max s_min s_max f seed
             remaining k σ in
  (r.1 ≠ inr true → files r.2 = files σ) ∧
  (r.1 = inr true → ∃ content,
     files r.2 = <[(output_directory cfg,
                    _generate_filename d n m w_min w_max s_min s_max f seed)
                   := content]> (files σ)).
Proof.
  cbv zeta. revert k σ. induction remaining as [|r IH]; intros k σ; [done|].
  cbn [attempt_loop]. rewrite bind_run.
  pose proof (keeps_files_draw_instance n m w_min w_max s_min s_max f
                (seed + k) σ) as Hfs1.
  destruct (draw_instance _ _ _ _ _ _ _ _ σ) as [[e|dr] σ1] eqn:Hdraw;
    simpl in Hfs1; [done|].
  rewrite bind_run.
  pose proof (keeps_files_min_class_size m (classes dr) σ1) as Hfs2.
  destruct (min_class_size m (classes dr) σ1) as [[e|mn] σ2]; simpl in Hfs2;
    [split; [intros _; simpl; congruence | done]|].
  case_decide.
  - rewrite bind_run.
    apply draw_instance_inv in Hdraw as (costs & asg & sws & Hdr).
    destruct (write_instance_file_ok cfg d n m w_min w_max s_min s_max f seed
                (bin_cost dr) (classes dr) (setup_costs dr) (setups dr)
                (items dr) σ2) as (σ3 & Hw); [by destruct Hdr..|].
    rewrite Hw. split; [done|]. intros _.
    apply write_instance_file_inv in Hw as (_ & _ & Hfs3).
    eexists. unfold mret, M_ret. cbn [snd]. by rewrite Hfs3, Hfs2, Hfs1.
  - destruct (IH (k + 1) σ2) as [Hno Hyes]. split.
    + intros Hr. by rewrite (Hno Hr), Hfs2, Hfs1.
    + intros Hr. destruct (Hyes Hr) as (c & Hc). exists c.
      by rewrite Hc, Hfs2, Hfs1.
Qed.
End files_facts.

(** X1: every class of an accepted instance holds at least
    [min_items_per_class] items: each row of the class table does, and so
    does the count printed on each class line. *)
Theorem accepted_classes_populated {G : RandomSource} cfg d n m v1 v2 s1 s2
    f seed (σ σ' : world) :
  _generate_single_instance cfg d n m v1 v2 s1 s2 f seed σ = (inr true, σ') →
  ∃ w_min w_max s_min s_max dr asg,
    accepted_instance cfg d n m w_min w_max s_min s_max f seed σ' dr asg ∧
    let table := class_table m (classes dr) (setup_costs dr) (setups dr) in
    Forall (λ r, min_items_per_class cfg ≤ Z.of_nat (length r.2)) table ∧
    Forall (λ r, min_items_per_class cfg ≤ r.2) (class_records table).
Proof.
  intros Hrun.
  apply generate_single_instance_inv in Hrun
    as (w_min & w_max & s_min & s_max & dr & asg & Hb & Hacc).
  exists w_min, w_max, s_min, s_max, dr, asg. split; [done|]. cbv zeta.
  destruct Hacc as [(k & costs & sws & σa & σb & _ & Hdr) Hm Hsz _].
  assert (Forall (λ r : Z * Z * list Z,
                    min_items_per_class cfg ≤ Z.of_nat (length r.2))
            (class_table m (classes dr) (setup_costs dr) (setups dr))) as Hall.
  { apply class_table_Forall. intros i Hi. simpl.
    rewrite (df_classes _ _ _ _ _ _ _ _ _ _ _ _ _ _ Hdr i Hi). simpl. auto. }
  split; [done|]. unfold class_records.
  apply Forall_fmap, Forall_forall. intros r Hr. simpl.
  apply list_elem_of_filter in Hr as [_ Hr].
  rewrite Forall_forall in Hall. by apply Hall.
Qed.

Lemma accepted_classes_populated_witness :
  example_run 0 = (inr true, (example_run 0).2) ∧
  ∃ w_min w_max s_min s_max dr asg,
    accepted_instance example_cfg 200 10 5 w_min w_max s_min s_max 0 0
      (example_run 0).2 dr asg ∧
    let table := class_table 5 (classes dr) (setup_costs dr) (setups dr) in
    Forall (λ r, min_items_per_class example_cfg ≤ Z.of_nat (length r.2)) table ∧
    Forall (λ r, min_items_per_class example_cfg ≤ r.2) (class_records table).
Proof.
  assert (example_run 0 = (inr true, (example_run 0).2)) as Hrun
    by (apply run_pair; vm_compute; reflexivity).
  split; [exact Hrun|].
  exact (accepted_classes_populated _ _ _ _ _ _ _ _ _ _ _ _ Hrun).
Defined.



(** X3: the builder changes the files only when it succeeds, and then it
    sets one entry, the instance's path; when it returns [False] or raises,
    the files are as they were. *)
Theorem builder_writes_only_its_file {G : RandomSource} cfg d n m v1 v2 s1 s2
    f seed (σ : world) :
  let r := _generate_single_instance cfg d n m v1 v2 s1 s2 f seed σ in
  (r.1 ≠ inr true → files r.2 = files σ) ∧
  (r.1 = inr true → ∃ w_min w_max s_min s_max content,
     derive_bounds d v1 v2 s1 s2 = inr (w_min, w_max, s_min, s_max) ∧
     files r.2 = <[(output_directory cfg,
                    _generate_filename d n m w_min w_max s_min s_max f seed)
                   := content]> (files σ)).
Proof.
  cbv zeta. unfold _generate_single_instance. rewrite bind_run. unfold lift.
  destruct (derive_bounds d v1 v2 s1 s2)
    as [e|[[[w_min w_max] s_min] s_max]] eqn:Hb; [done|].
  destruct (attempt_loop_files cfg d n m w_min w_max s_min s_max f seed
              (Z.to_nat max_attempts) 0 σ) as [Hno Hyes].
  split; [done|]. intros Hr. destruct (Hyes Hr) as (c & Hc).
  by exists w_min, w_max, s_min, s_max, c.
Qed.

Lemma builder_writes_only_its_file_witness :
  let r := _generate_single_instance (G:=LCG) example_cfg 200 10 5
             (literal 5 2) (literal 15 2) (literal 1 2) (literal 10 2)
             0 0 other_world in
  (r.1 ≠ inr true → files r.2 = files other_world) ∧
  (r.1 = inr true → ∃ w_min w_max s_min s_max content,
     derive_bounds 200 (literal 5 2) (literal 15 2) (literal 1 2) (literal 10 2)
       = inr (w_min, w_max, s_min, s_max) ∧
     files r.2 = <[(output_directory example_cfg,
                    _generate_filename 200 10 5 w_min w_max s_min s_max 0 0)
                   := content]> (files other_world)).
Proof.
  exact (builder_writes_only_its_file (G:=LCG) example_cfg 200 10 5
           (literal 5 2) (literal 15 2) (literal 1 2) (literal 10 2) 0 0
           other_world).
Defined.

(** X4: building the same instance again changes nothing: a second call
    on the world the first one left succeeds as well and leaves the files
    exactly as they were, the instance's file overwritten with the same
    content. *)
Theorem builder_rerun_idempotent {G : RandomSource} cfg d n m v1 v2 s1 s2
    f seed (σ σ1 : world) :
  _generate_single_instance cfg d n m v1 v2 s1 s2 f seed σ = (inr true, σ1) →
  ∃ σ2,
    _generate_single_instance cfg d n m v1 v2 s1 s2 f seed σ1 = (inr true, σ2) ∧
    files σ2 = files σ1.
Proof.
  unfold _generate_single_instance. rewrite !bind_run. unfold lift.
  destruct (derive_bounds d v1 v2 s1 s2)
    as [e|[[[w_min w_max] s_min] s_max]] eqn:Hb; [done|].
  generalize (Z.to_nat max_attempts). intros fuel Hrun.
  pose proof (attempt_loop_deterministic cfg d n m w_min w_max s_min s_max f
                seed fuel 0 σ σ1) as [Hres Hsame].
  pose proof (attempt_loop_files cfg d n m w_min w_max s_min s_max f seed
                fuel 0 σ) as [_ Hf1].
  pose proof (attempt_loop_files cfg d n m w_min w_max s_min s_max f seed
                fuel 0 σ1) as [_ Hf2].
  cbv zeta in Hres, Hsame, Hf1, Hf2.
  destruct (attempt_loop cfg d n m w_min w_max s_min s_max f seed fuel 0 σ1)
    as [r2 σ2].
  rewrite Hrun in Hres, Hsame, Hf1. cbn [fst snd] in Hres, Hsame, Hf1, Hf2.
  subst r2. exists σ2. split; [done|].
  destruct (Hsame eq_refl) as (c & Hc1 & Hc2).
  destruct (Hf1 eq_refl) as (c1 & Hfs1). destruct (Hf2 eq_refl) as (c2 & Hfs2).
  rewrite Hfs1, lookup_insert_eq in Hc1. rewrite Hfs2, lookup_insert_eq in Hc2.
  simplify_eq. by rewrite Hfs2, Hfs1, insert_insert_eq.
Qed.

Lemma builder_rerun_idempotent_witness :
  example_run 0 = (inr true, (example_run 0).2) ∧
  ∃ σ2,
    _generate_single_instance (G:=LCG) example_cfg 200 10 5
      (literal 5 2) (literal 15 2) (literal 1 2) (literal 10 2) 0 0
      (example_run 0).2 = (inr true, σ2) ∧
    files σ2 = files (example_run 0).2.
Proof.
  assert (example_run 0 = (inr true, (example_run 0).2)) as Hrun
    by (apply run_pair; vm_compute; reflexivity).
  split; [exact Hrun|].
  exact (builder_rerun_idempotent _ _ _ _ _ _ _ _ _ _ _ _ Hrun).
Defined.

Section pass_facts.
Context {G : RandomSource}.

(** The content the writer leaves for a drawn instance is the file format
    applied to its class table. *)
Lemma written_content_spec n m d w_min w_max s_min s_max f sk costs asg sws
    (σ σ' : world) dr :
  drawn_from n m w_min w_max s_min s_max f sk costs asg sws σ σ' dr →
  header_line n m d (bin_cost dr)
    +:+ concat_lines (class_lines
          (class_table m (classes dr) (setup_costs dr) (setups dr)))
    +:+ concat_lines (weight_line <$> items dr)
  = spec_file n m d (bin_cost dr)
      (class_table m (classes dr) (setup_costs dr) (setups dr)).
Proof.
  intros Hdr. unfold spec_file, spec_lines, weight_lines.
  rewrite (class_table_weights m dr asg) by by destruct Hdr.
  rewrite (df_items _ _ _ _ _ _ _ _ _ _ _ _ _ _ Hdr).
  simpl. by rewrite concat_lines_app.
Qed.

(** A rejected pass has a class that is too small. *)
Lemma rejected_class cfg m (cls : dict (list Z)) (g : Z → list Z) mn :
  (∀ i, i ∈ range m → dict_get cls i = Some (g i)) →
  py_min ((λ i, Z.of_nat (length (g i))) <$> range m) = inr mn →
  ¬ min_items_per_class cfg ≤ mn →
  ∃ i ws, i ∈ range m ∧ dict_get cls i = Some ws ∧
    Z.of_nat (length ws) < min_items_per_class cfg.
Proof.
  intros Hget Hmin Hrej.
  destruct ((λ i, Z.of_nat (length (g i))) <$> range m) as [|x l] eqn:Hl;
    [done|].
  injection Hmin as <-. pose proof (foldl_min_elem x l) as Hin.
  rewrite <- Hl in Hin. apply list_elem_of_fmap in Hin as (i & Hi & Hin).
  exists i, (g i). split_and!; [done | by apply Hget | lia].
Qed.

Lemma attempt_loop_first cfg d n m w_min w_max s_min s_max f seed
    remaining k0 (σ σ' : world) :
  attempt_loop cfg d n m w_min w_max s_min s_max f seed remaining k0 σ
    = (inr true, σ') →
  ∃ k dr,
    k0 ≤ k < k0 + Z.of_nat remaining ∧
    (∀ σk : world,
       (draw_instance n m w_min w_max s_min s_max f (seed + k) σk).1 = inr dr) ∧
    (∀ i, i ∈ range m → ∃ ws, dict_get (classes dr) i = Some ws ∧
       min_items_per_class cfg ≤ Z.of_nat (length ws)) ∧
    files σ' !! (output_directory cfg,
                 _generate_filename d n m w_min w_max s_min s_max f seed)
      = Some (spec_file n m d (bin_cost dr)
                (class_table m (classes dr) (setup_costs dr) (setups dr))) ∧
    seeds_of (drop (length (trace σ)) (trace σ'))
      = (λ j, seed + j) <$> seqZ k0 (k - k0 + 1) ∧
    ∀ j, k0 ≤ j < k → ∃ drj,
      (∀ σj : world,
         (draw_instance n m w_min w_max s_min s_max f (seed + j) σj).1
           = inr drj) ∧
      ∃ i ws, i ∈ range m ∧ dict_get (classes drj) i = Some ws ∧
        Z.of_nat (length ws) < min_items_per_class cfg.
Proof.
  revert k0 σ. induction remaining as [|r IH]; intros k0 σ Hrun.
  - by apply ret_ok_inv in Hrun as [? _].
  - cbn [attempt_loop] in Hrun.
    apply bind_ok_inv in Hrun as (dr & σ1 & Hdraw & Hrun).
    apply bind_ok_inv in Hrun as (mn & σ2 & Hmin & Hrun).
    assert (∀ σk : world,
      (draw_instance n m w_min w_max s_min s_max f (seed + k0) σk).1 = inr dr)
      as Hany.
    { intros σk.
      destruct (draw_instance_seeded n m w_min w_max s_min s_max f
                  (seed + k0) σk σ) as [-> _]. by rewrite Hdraw. }
    apply draw_instance_inv in Hdraw as (costs & asg & sws & Hdr).
    apply (min_class_size_inv _ _ (λ i, select i asg)) in Hmin as [-> Hmin];
      [| by destruct Hdr].
    destruct (drawn_from_trace _ _ _ _ _ _ _ _ _ _ _ _ _ _ Hdr)
      as (tr & Htr & _ & Hs).
    case_decide as Hacc.
    + apply bind_ok_inv in Hrun as ([] & σ3 & Hwrite & Hrun).
      apply ret_ok_inv in Hrun as [_ ->].
      apply write_instance_file_inv in Hwrite as (_ & Htr3 & Hfs).
      exists k0, dr. split_and!; [lia | lia | done | | | | intros; lia].
      * intros i Hi. exists (select i asg).
        split; [by apply (df_classes _ _ _ _ _ _ _ _ _ _ _ _ _ _ Hdr)|].
        apply py_min_lower in Hmin as [_ Hall].
        rewrite Forall_fmap, Forall_forall in Hall.
        specialize (Hall i Hi). simpl in Hall. lia.
      * rewrite Hfs, lookup_insert_eq. f_equal.
        by eapply written_content_spec.
      * rewrite Htr3, Htr, drop_app_length, seeds_of_seed, Hs.
        replace (k0 - k0 + 1) with 1 by lia. done.
    + pose proof Hrun as Hloop.
      apply IH in Hrun as (k & drk & Hk & Hanyk & Hok & Hfile & Hseeds & Hrej).
      exists k, drk. split_and!; [lia | lia | done | done | done | |].
      * assert (∃ t, trace σ' = trace σ1 ++ t) as (t & Ht).
        { exists (drop (length (trace σ1)) (trace σ')).
          destruct (attempt_loop_trace _ _ _ _ _ _ _ _ _ _ _ _ _ _ _ Hloop)
            as (trs & -> & _).
          by rewrite drop_app_length. }
        rewrite Ht, drop_app_length in Hseeds.
        rewrite Ht, Htr, <- app_assoc, drop_app_length, <- app_comm_cons.
        rewrite seeds_of_seed, seeds_of_app, Hs, Hseeds. cbn [app].
        rewrite (seqZ_cons k0) by lia. rewrite fmap_cons.
        do 3 f_equal; lia.
      * intros j Hj. destruct (decide (j = k0)) as [->|Hne].
        -- exists dr. split; [done|].
           apply (rejected_class cfg m _ (λ i, select i asg) mn); [|done..].
           by destruct Hdr.
        -- apply Hrej. lia.
Qed.
End pass_facts.

(** X5: the builder accepts the first pass that passes the test.  When it
    succeeds, some pass [k] below 1000 drew the written instance, with every
    class holding at least [min_items_per_class] items; the generator was
    reseeded exactly [k + 1] times, with [seed], ..., [seed + k]; and each
    earlier pass drew an instance with a class that is too small.  What a
    pass draws depends on its seed alone, not on the world it starts in. *)
Theorem first_acceptable_pass_wins {G : RandomSource} cfg d n m v1 v2 s1 s2
    f seed (σ σ' : world) :
  _generate_single_instance cfg d n m v1 v2 s1 s2 f seed σ = (inr true, σ') →
  ∃ w_min w_max s_min s_max k dr,
    derive_bounds d v1 v2 s1 s2 = inr (w_min, w_max, s_min, s_max) ∧
    0 ≤ k < max_attempts ∧
    (∀ σk : world,
       (draw_instance n m w_min w_max s_min s_max f (seed + k) σk).1 = inr dr) ∧
    (∀ i, i ∈ range m → ∃ ws, dict_get (classes dr) i = Some ws ∧
       min_items_per_class cfg ≤ Z.of_nat (length ws)) ∧
    files σ' !! (output_directory cfg,
                 _generate_filename d n m w_min w_max s_min s_max f seed)
      = Some (spec_file n m d (bin_cost dr)
                (class_table m (classes dr) (setup_costs dr) (setups dr))) ∧
    seeds_of (drop (length (trace σ)) (trace σ'))
      = (λ j, seed + j) <$> range (k + 1) ∧
    ∀ j, 0 ≤ j < k → ∃ drj,
      (∀ σj : world,
         (draw_instance n m w_min w_max s_min s_max f (seed + j) σj).1
           = inr drj) ∧
      ∃ i ws, i ∈ range m ∧ dict_get (classes drj) i = Some ws ∧
        Z.of_nat (length ws) < min_items_per_class cfg.
Proof.
  unfold _generate_single_instance. intros Hrun.
  apply bind_ok_inv in Hrun as ([[[w_min w_max] s_min] s_max] & σ1 & Hb & Hrun).
  apply lift_ok_inv in Hb as [Hb ->].
  apply attempt_loop_first in Hrun
    as (k & dr & Hk & Hany & Hok & Hfile & Hseeds & Hrej).
  exists w_min, w_max, s_min, s_max, k, dr.
  rewrite Z.sub_0_r in Hseeds. rewrite Z2Nat.id in Hk by done.
  split_and!; try done; lia.
Qed.

Lemma first_acceptable_pass_wins_witness :
  example_run 1 = (inr true, (example_run 1).2) ∧
  ∃ w_min w_max s_min s_max k dr,
    derive_bounds 200 (literal 5 2) (literal 15 2) (literal 1 2) (literal 10 2)
      = inr (w_min, w_max, s_min, s_max) ∧
    0 ≤ k < max_attempts ∧
    (∀ σk : @world LCG,
       (draw_instance 10 5 w_min w_max s_min s_max 1 (0 + k) σk).1 = inr dr) ∧
    (∀ i, i ∈ range 5 → ∃ ws, dict_get (classes dr) i = Some ws ∧
       min_items_per_class example_cfg ≤ Z.of_nat (length ws)) ∧
    files (example_run 1).2
      !! (output_directory example_cfg,
          _generate_filename 200 10 5 w_min w_max s_min s_max 1 0)
      = Some (spec_file 10 5 200 (bin_cost dr)
                (class_table 5 (classes dr) (setup_costs dr) (setups dr))) ∧
    seeds_of (drop (length (trace start_world)) (trace (example_run 1).2))
      = (λ j, 0 + j) <$> range (k + 1) ∧
    ∀ j, 0 ≤ j < k → ∃ drj,
      (∀ σj : @world LCG,
         (draw_instance 10 5 w_min w_max s_min s_max 1 (0 + j) σj).1
           = inr drj) ∧
      ∃ i ws, i ∈ range 5 ∧ dict_get (classes drj) i = Some ws ∧
        Z.of_nat (length ws) < min_items_per_class example_cfg.
Proof.
  assert (example_run 1 = (inr true, (example_run 1).2)) as Hrun
    by (apply run_pair; vm_compute; reflexivity).
  split; [exact Hrun|].
  exact (first_acceptable_pass_wins _ _ _ _ _ _ _ _ _ _ _ _ Hrun).
Defined.



(** * The derived bounds and the file name *)

Lemma floor_le_ceil (x : float) (lo hi : Z) :
  floor x = inr lo → ceil x = inr hi → lo ≤ hi ≤ lo + 1.
Proof.
  destruct x as [s|s| |s m e]; simpl; try done.
  - intros [= <-] [= <-]. lia.
  - intros [= <-] [= <-]. case_decide; [lia|].
    assert (cond_Zopp (negb s) (Z.pos m) = - cond_Zopp s (Z.pos m)) as ->
      by (by destruct s).
    set (a := cond_Zopp s (Z.pos m)). set (p := 2 ^ (- e)).
    assert (0 < p) by (apply Z.pow_pos_nonneg; lia).
    pose proof (Z.div_mod a p). pose proof (Z.mod_pos_bound a p).
    pose proof (Z.div_mod (- a) p). pose proof (Z.mod_pos_bound (- a) p).
    nia.
Qed.

(** X6: a fraction pair with equal ends never gives an empty range: the
    floor and the ceiling of the same product are equal or one apart, so
    the derived range holds one or two integers. *)
Theorem degenerate_pair_range d v s w_min w_max s_min s_max :
  derive_bounds d v v s s = inr (w_min, w_max, s_min, s_max) →
  w_min ≤ w_max ≤ w_min + 1 ∧ s_min ≤ s_max ≤ s_min + 1.
Proof.
  intros (Hw1 & Hw2 & Hs1 & Hs2)%derive_bounds_inv.
  unfold floor_scaled, ceil_scaled in *.
  destruct (int_mul_float d v) as [e|x]; [done|].
  destruct (int_mul_float d s) as [e|y]; [done|].
  split; by eapply floor_le_ceil.
Qed.

Lemma degenerate_pair_range_witness :
  derive_bounds 3 (literal 1 1) (literal 1 1) (literal 5 1) (literal 5 1)
    = inr (0, 1, 1, 2) ∧
  (0 ≤ 1 ≤ 0 + 1 ∧ 1 ≤ 2 ≤ 1 + 1).
Proof.
  assert (derive_bounds 3 (literal 1 1) (literal 1 1) (literal 5 1)
            (literal 5 1) = inr (0, 1, 1, 2)) as Hb by (vm_compute; reflexivity).
  split; [exact Hb|]. exact (degenerate_pair_range _ _ _ _ _ _ _ Hb).
Defined.

Lemma numeric_pretty_N_char (x : N) : numeric (pretty_N_char x) = true.
Proof. unfold pretty_N_char. by repeat case_match. Qed.

Lemma numeric_pretty_N_go (x : N) (s : string) :
  numeric_string s → numeric_string (pretty_N_go x s).
Proof.
  revert s. induction (N.lt_wf_0 x) as [x _ IH]; intros s Hs.
  destruct (decide (x = 0)%N) as [->|Hx]; [by rewrite pretty_N_go_0|].
  rewrite pretty_N_go_step by lia. apply IH.
  - apply N.div_lt; lia.
  - split; [apply numeric_pretty_N_char | done].
Qed.

Lemma numeric_pretty_Z (z : Z) : numeric_string (pretty z).
Proof.
  assert (∀ x : N, numeric_string (pretty x)) as HN.
  { intros x. unfold pretty, pretty_N. case_decide; [done|].
    by apply numeric_pretty_N_go. }
  destruct z as [|p|p]; [done | apply HN |].
  unfold pretty, pretty_Z. split; [done | apply HN].
Qed.

(** A numeric string is cut off by the first character that is not. *)
Lemma numeric_prefix_inj (s1 s2 : string) (c1 c2 : ascii) (r1 r2 : string) :
  numeric_string s1 → numeric_string s2 →
  numeric c1 = false → numeric c2 = false →
  s1 +:+ String c1 r1 = s2 +:+ String c2 r2 →
  s1 = s2 ∧ c1 = c2 ∧ r1 = r2.
Proof.
  revert s2. induction s1 as [|a s1 IH]; intros [|b s2] Hs1 Hs2 Hc1 Hc2 Heq.
  - by injection Heq as -> ->.
  - injection Heq as -> _. destruct Hs2. congruence.
  - injection Heq as -> _. destruct Hs1. congruence.
  - injection Heq as -> Heq. destruct Hs1, Hs2.
    destruct (IH s2) as (-> & -> & ->); auto.
Qed.

Lemma pretty_field_inj (x y : Z) (c1 c2 : ascii) (r1 r2 : string) :
  numeric c1 = false → numeric c2 = false →
  pretty x +:+ String c1 r1 = pretty y +:+ String c2 r2 →
  x = y ∧ c1 = c2 ∧ r1 = r2.
Proof.
  intros Hc1 Hc2 Heq.
  apply numeric_prefix_inj in Heq as (Hxy & ? & ?);
    [| apply numeric_pretty_Z.. | done | done].
  split; [|done]. by apply (inj pretty).
Qed.

(** X7: the file name determines the nine integers it is built from: two
    calls of [_generate_filename] give the same name only for the same
    capacity, counts, bounds, flag and seed. *)
Theorem generate_filename_inj d n m w_min w_max s_min s_max f seed
    d' n' m' w_min' w_max' s_min' s_max' f' seed' :
  _generate_filename d n m w_min w_max s_min s_max f seed
    = _generate_filename d' n' m' w_min' w_max' s_min' s_max' f' seed' →
  d = d' ∧ n = n' ∧ m = m' ∧ w_min = w_min' ∧ w_max = w_max' ∧
  s_min = s_min' ∧ s_max = s_max' ∧ f = f' ∧ seed = seed'.
Proof.
  unfold _generate_filename. intros Heq.
  apply (inj (String.app "bpps_d")) in Heq.
  apply pretty_field_inj in Heq as (-> & _ & Heq); [|done..].
  apply pretty_field_inj in Heq as (-> & _ & Heq); [|done..].
  apply pretty_field_inj in Heq as (-> & _ & Heq); [|done..].
  apply pretty_field_inj in Heq as (-> & _ & Heq); [|done..].
  apply pretty_field_inj in Heq as (-> & _ & Heq); [|done..].
  apply pretty_field_inj in Heq as (-> & _ & Heq); [|done..].
  apply pretty_field_inj in Heq as (-> & _ & Heq); [|done..].
  apply pretty_field_inj in Heq as (-> & _ & Heq); [|done..].
  apply (inj (String.app "seed")) in Heq.
  apply pretty_field_inj in Heq as (-> & _ & _); [|done..].
  done.
Qed.

Lemma generate_filename_inj_witness :
  _generate_filename 200 10 5 10 30 2 20 0 0
    = _generate_filename 200 10 5 10 30 2 20 0 0 ∧
  (200 = 200 ∧ 10 = 10 ∧ 5 = 5 ∧ 10 = 10 ∧ 30 = 30 ∧ 2 = 2 ∧ 20 = 20 ∧
   0 = 0 ∧ 0 = 0).
Proof.
  split; [reflexivity|].
  exact (generate_filename_inj 200 10 5 10 30 2 20 0 0 200 10 5 10 30 2 20 0 0
           eq_refl).
Defined.

(** * Further properties of the sweep *)

Lemma write_all_app ws1 ws2 fs :
  write_all (ws1 ++ ws2) fs = write_all ws2 (write_all ws1 fs).
Proof. apply foldl_app. Qed.

Lemma write_all_other ws fs p :
  p ∉ ws.*1 → write_all ws fs !! p = fs !! p.
Proof.
  revert fs. induction ws as [|[q c] ws IH]; intros fs Hp; [done|].
  apply not_elem_of_cons in Hp as [Hne Hp]. simpl in Hne.
  change (write_all ((q, c) :: ws) fs) with (write_all ws (<[q := c]> fs)).
  rewrite IH by done. by rewrite lookup_insert_ne.
Qed.

Lemma write_all_written ws fs1 fs2 p :
  p ∈ ws.*1 → write_all ws fs1 !! p = write_all ws fs2 !! p.
Proof.
  revert fs1 fs2. induction ws as [|[q c] ws IH]; intros fs1 fs2 Hp.
  - by apply elem_of_nil in Hp.
  - change (write_all ((q, c) :: ws) ?fs) with (write_all ws (<[q := c]> fs)).
    destruct (decide (p ∈ ws.*1)) as [Hin|Hnot]; [by apply IH|].
    rewrite !write_all_other by done.
    apply elem_of_cons in Hp as [->|?]; [|done]. simpl.
    by rewrite !lookup_insert_eq.
Qed.

(** Replaying the same writes a second time changes nothing. *)
Lemma write_all_idemp ws fs : write_all ws (write_all ws fs) = write_all ws fs.
Proof.
  apply map_eq. intros p. destruct (decide (p ∈ ws.*1)) as [Hin|Hnot].
  - by apply write_all_written.
  - by rewrite !write_all_other.
Qed.

Section sweep_effect.
Context {G : RandomSource}.

(** The outcome of a builder call and the write it makes are the same in
    every world. *)
Lemma builder_effect cfg d n m v1 v2 s1 s2 f seed :
  ∃ (o : exn + bool) (ws : list ((string * string) * string)),
    (o = inr true → ∃ bounds, derive_bounds d v1 v2 s1 s2 = inr bounds) ∧
    ∀ σ : world,
      (_generate_single_instance cfg d n m v1 v2 s1 s2 f seed σ).1 = o ∧
      files (_generate_single_instance cfg d n m v1 v2 s1 s2 f seed σ).2
        = write_all ws (files σ).
Proof.
  unfold _generate_single_instance.
  destruct (derive_bounds d v1 v2 s1 s2)
    as [e|[[[w_min w_max] s_min] s_max]] eqn:Hb.
  { exists (inl e), []. split; [done|]. intros σ. by rewrite bind_run. }
  generalize (Z.to_nat max_attempts). intros fuel.
  set (σ0 := World (rng_seed 0) [] ∅).
  set (loop := attempt_loop cfg d n m w_min w_max s_min s_max f seed fuel 0).
  set (path := (output_directory cfg,
                _generate_filename d n m w_min w_max s_min s_max f seed)).
  assert (∀ σ, (lift (inr (w_min, w_max, s_min, s_max))
                 ≫= (λ '(w_min, w_max, s_min, s_max),
                       attempt_loop cfg d n m w_min w_max s_min s_max f seed
                         fuel 0)) σ = loop σ) as Hrun by done.
  assert ((loop σ0).1 = inr true ∨ (loop σ0).1 ≠ inr true) as [Hok|Hno]
    by (destruct (loop σ0).1 as [?|[|]]; [by right | by left | by right]).
  - destruct (attempt_loop_files cfg d n m w_min w_max s_min s_max f seed
                fuel 0 σ0) as [_ Hf0].
    destruct (Hf0 Hok) as (c0 & Hc0). fold loop path in Hc0.
    exists (inr true), [(path, c0)]. split; [by eauto|]. intros σ.
    rewrite Hrun.
    destruct (attempt_loop_deterministic cfg d n m w_min w_max s_min s_max f
                seed fuel 0 σ0 σ) as [Hres Hsame].
    destruct (attempt_loop_files cfg d n m w_min w_max s_min s_max f seed
                fuel 0 σ) as [_ Hf].
    fold loop path in Hres, Hsame, Hf. rewrite Hok in Hres.
    split; [done|]. destruct (Hf (eq_sym Hres)) as (c & Hc).
    destruct (Hsame Hok) as (c' & H1 & H2).
    rewrite Hc0, lookup_insert_eq in H1. rewrite Hc, lookup_insert_eq in H2.
    simplify_eq. by rewrite Hc.
  - exists (loop σ0).1, []. split; [done|]. intros σ. rewrite Hrun.
    destruct (attempt_loop_deterministic cfg d n m w_min w_max s_min s_max f
                seed fuel 0 σ0 σ) as [Hres _].
    destruct (attempt_loop_files cfg d n m w_min w_max s_min s_max f seed
                fuel 0 σ) as [Hf _].
    fold loop in Hres, Hf. split; [done|]. apply Hf. by rewrite <- Hres.
Qed.

(** What the loop body does for a tuple: how it updates the counters, or
    the exception it raises, and the write it makes. *)
Lemma sweep_body_effect cfg t :
  ∃ (step : exn + (counters → counters))
    (ws : list ((string * string) * string)),
    ∀ acc (σ : world),
      (sweep_body cfg acc t σ).1
        = match step with inl e => inl e | inr g => inr (g acc) end ∧
      files (sweep_body cfg acc t σ).2 = write_all ws (files σ).
Proof.
  destruct (builder_effect cfg (ft_d t) (ft_n t) (ft_m t) (ft_v1 t) (ft_v2 t)
              (ft_s1 t) (ft_s2 t) (ft_f t) (ft_seed t))
    as (o & ws & Hbounds & Hrun).
  destruct o as [e|[|]].
  - exists (inl e), ws. intros acc σ. unfold sweep_body. rewrite bind_run.
    destruct (Hrun σ) as [Hres Hfs].
    destruct (_generate_single_instance _ _ _ _ _ _ _ _ _ _ σ) as [r σ1].
    simpl in *. by subst r.
  - destruct Hbounds as (bounds & Hb); [done|].
    exists (inr (λ acc, Counters (total_instances acc + 1)
                          (successful_instances acc + 1)
                          (failed_instances acc))), ws.
    intros acc σ. unfold sweep_body. rewrite bind_run.
    destruct (Hrun σ) as [Hres Hfs].
    destruct (_generate_single_instance _ _ _ _ _ _ _ _ _ _ σ) as [r σ1].
    simpl in *. subst r. rewrite bind_run. unfold lift. by rewrite Hb.
  - exists (inr (λ acc, Counters (total_instances acc + 1)
                          (successful_instances acc)
                          (failed_instances acc ++ [t]))), ws.
    intros acc σ. unfold sweep_body. rewrite bind_run.
    destruct (Hrun σ) as [Hres Hfs].
    destruct (_generate_single_instance _ _ _ _ _ _ _ _ _ _ σ) as [r σ1].
    simpl in *. by subst r.
Qed.

Lemma sweep_tuples_effect cfg l :
  ∃ (step : exn + (counters → counters))
    (ws : list ((string * string) * string)),
    ∀ acc (σ : world),
      (foldM (sweep_body cfg) acc l σ).1
        = match step with inl e => inl e | inr g => inr (g acc) end ∧
      files (foldM (sweep_body cfg) acc l σ).2 = write_all ws (files σ).
Proof.
  induction l as [|t l (step_l & ws_l & IH)].
  - by exists (inr (λ acc, acc)), [].
  - destruct (sweep_body_effect cfg t) as (step_t & ws_t & Ht).
    destruct step_t as [e|g].
    + exists (inl e), ws_t. intros acc σ. cbn [foldM]. rewrite bind_run.
      destruct (Ht acc σ) as [Hres Hfs].
      destruct (sweep_body cfg acc t σ) as [r σ1]. simpl in *. by subst r.
    + exists (match step_l with inl e => inl e | inr h => inr (λ acc, h (g acc))
              end), (ws_t ++ ws_l).
      intros acc σ. cbn [foldM]. rewrite bind_run.
      destruct (Ht acc σ) as [Hres Hfs].
      destruct (sweep_body cfg acc t σ) as [r σ1]. simpl in *. subst r.
      destruct (IH (g acc) σ1) as [Hres' Hfs'].
      rewrite Hres', Hfs', Hfs, write_all_app. by destruct step_l.
Qed.

Lemma generate_instances_effect cfg :
  ∃ (o : exn + statistics) (ws : list ((string * string) * string)),
    ∀ σ : world,
      (generate_instances cfg σ).1 = o ∧
      files (generate_instances cfg σ).2 = write_all ws (files σ).
Proof.
  destruct (sweep_tuples_effect cfg (combinations cfg)) as (step & ws & Hsw).
  exists (match step with
          | inl e => inl e
          | inr g => make_statistics (g (Counters 0 0 []))
          end), ws.
  intros σ. unfold generate_instances. rewrite bind_run, sweep_flat.
  destruct (Hsw (Counters 0 0 []) σ) as [Hres Hfs].
  destruct (foldM (sweep_body cfg) (Counters 0 0 []) (combinations cfg) σ)
    as [r σ1]. simpl in *. subst r. by destruct step.
Qed.
End sweep_effect.

(** X8: the sweep does not depend on the world it starts in and can be
    run again: from any two worlds it ends the same way, with the same
    statistics or the same exception; and a second run on the world the
    first one left ends the same way again and leaves every file as the
    first run left it. *)
Theorem sweep_rerun_idempotent {G : RandomSource} cfg (σ σa : world) :
  let r := generate_instances cfg σ in
  (generate_instances cfg σa).1 = r.1 ∧
  files (generate_instances cfg r.2).2 = files r.2.
Proof.
  cbv zeta. destruct (generate_instances_effect cfg) as (o & ws & Heff).
  destruct (Heff σ) as [Hr Hfs]. destruct (Heff σa) as [Hra _].
  destruct (Heff (generate_instances cfg σ).2) as [_ Hfs2].
  split; [congruence|]. by rewrite Hfs2, Hfs, write_all_idemp.
Qed.

Lemma sweep_rerun_idempotent_witness :
  let r := generate_instances (G:=LCG) three_cfg start_world in
  (generate_instances (G:=LCG) three_cfg other_world).1 = r.1 ∧
  files (generate_instances (G:=LCG) three_cfg r.2).2 = files r.2.
Proof.
  exact (sweep_rerun_idempotent (G:=LCG) three_cfg start_world other_world).
Defined.

Section sweep_accounting.
Context {G : RandomSource}.

Lemma build_tuple_files cfg t (σ σ1 : world) b :
  build_tuple cfg t σ = (inr b, σ1) →
  if b then
    ∃ w_min w_max s_min s_max content,
      derive_bounds (ft_d t) (ft_v1 t) (ft_v2 t) (ft_s1 t) (ft_s2 t)
        = inr (w_min, w_max, s_min, s_max) ∧
      files σ1 = <[(output_directory cfg,
                    _generate_filename (ft_d t) (ft_n t) (ft_m t)
                      w_min w_max s_min s_max (ft_f t) (ft_seed t))
                   := content]> (files σ)
  else files σ1 = files σ.
Proof.
  unfold build_tuple, _generate_single_instance. rewrite bind_run. unfold lift.
  destruct (derive_bounds _ _ _ _ _)
    as [e|[[[w_min w_max] s_min] s_max]] eqn:Hb; [done|].
  generalize (Z.to_nat max_attempts). intros fuel Hrun.
  destruct (attempt_loop_files cfg (ft_d t) (ft_n t) (ft_m t) w_min w_max
              s_min s_max (ft_f t) (ft_seed t) fuel 0 σ) as [Hno Hyes].
  rewrite Hrun in Hno, Hyes. cbn [fst snd] in Hno, Hyes. destruct b.
  - destruct (Hyes eq_refl) as (c & Hc).
    by exists w_min, w_max, s_min, s_max, c.
  - by apply Hno.
Qed.

(** The outcome of a tuple's builder call is the same in every world. *)
Lemma build_tuple_any_world cfg t (σ σ1 σt : world) r :
  build_tuple cfg t σ = (r, σ1) → (build_tuple cfg t σt).1 = r.
Proof.
  intros Hrun.
  destruct (builder_effect cfg (ft_d t) (ft_n t) (ft_m t) (ft_v1 t) (ft_v2 t)
              (ft_s1 t) (ft_s2 t) (ft_f t) (ft_seed t)) as (o & ws & _ & Ho).
  destruct (Ho σ) as [H1 _]. destruct (Ho σt) as [H2 _].
  unfold build_tuple in *. rewrite Hrun in H1. simpl in H1. congruence.
Qed.

Lemma sweep_body_cases cfg acc t (σ σ1 : world) acc1 :
  sweep_body cfg acc t σ = (inr acc1, σ1) →
  ∃ b, build_tuple cfg t σ = (inr b, σ1) ∧
    acc1 = if b
           then Counters (total_instances acc + 1)
                  (successful_instances acc + 1) (failed_instances acc)
           else Counters (total_instances acc + 1)
                  (successful_instances acc) (failed_instances acc ++ [t]).
Proof.
  unfold sweep_body. intros Hrun.
  apply bind_ok_inv in Hrun as (b & σ2 & Hbuild & Hrun). exists b.
  destruct b.
  - apply bind_ok_inv in Hrun as (x & σ3 & Hb & Hrun).
    apply lift_ok_inv in Hb as [_ ->]. by apply ret_ok_inv in Hrun as [-> ->].
  - by apply ret_ok_inv in Hrun as [-> ->].
Qed.
End sweep_accounting.

(** X9: a sweep that returns accounts for every combination.  The failed
    list holds, in sweep order, exactly the combinations whose builder call
    returns [False] (in whatever world it is made); every other combination
    has its instance file in place when the sweep ends; and no file that
    was there before is gone. *)
Theorem sweep_accounts_for_every_tuple {G : RandomSource} cfg (σ σ' : world)
    stats :
  generate_instances cfg σ = (inr stats, σ') →
  stat_failed_instances stats `sublist_of` combinations cfg ∧
  (∀ t, t ∈ stat_failed_instances stats →
     ∀ σt : world, (build_tuple cfg t σt).1 = inr false) ∧
  (∀ t, t ∈ combinations cfg →
     t ∈ stat_failed_instances stats ∨
     (∀ σt : world, (build_tuple cfg t σt).1 = inr true) ∧
     ∃ w_min w_max s_min s_max content,
       derive_bounds (ft_d t) (ft_v1 t) (ft_v2 t) (ft_s1 t) (ft_s2 t)
         = inr (w_min, w_max, s_min, s_max) ∧
       files σ' !! (output_directory cfg,
                    _generate_filename (ft_d t) (ft_n t) (ft_m t)
                      w_min w_max s_min s_max (ft_f t) (ft_seed t))
         = Some content) ∧
  (∀ p, is_Some (files σ !! p) → is_Some (files σ' !! p)).
Proof.
  unfold generate_instances. intros Hrun.
  apply bind_ok_inv in Hrun as (acc & σ1 & Hsweep & Hrun).
  apply lift_ok_inv in Hrun as [Hstats ->].
  apply make_statistics_inv in Hstats as (_ & _ & _ & -> & _).
  rewrite sweep_flat in Hsweep.
  eapply (foldM_inv _ (λ done acc1 σ1,
      failed_instances acc1 `sublist_of` done ∧
      (∀ t, t ∈ failed_instances acc1 →
         ∀ σt : world, (build_tuple cfg t σt).1 = inr false) ∧
      (∀ t, t ∈ done →
         t ∈ failed_instances acc1 ∨
         (∀ σt : world, (build_tuple cfg t σt).1 = inr true) ∧
         ∃ w_min w_max s_min s_max content,
           derive_bounds (ft_d t) (ft_v1 t) (ft_v2 t) (ft_s1 t) (ft_s2 t)
             = inr (w_min, w_max, s_min, s_max) ∧
           files σ1 !! (output_directory cfg,
                        _generate_filename (ft_d t) (ft_n t) (ft_m t)
                          w_min w_max s_min s_max (ft_f t) (ft_seed t))
             = Some content) ∧
      (∀ p, is_Some (files σ !! p) → is_Some (files σ1 !! p)))) in Hsweep;
    [done | |].
  - split_and!; [done | by intros t ?%elem_of_nil | by intros t ?%elem_of_nil
                | done].
  - clear Hsweep. intros done t rest acc1 σ2 acc2 σ3 _
      (Hsub & Hfail & Hdone & Hkeep) Hstep.
    apply sweep_body_cases in Hstep as (b & Hbuild & ->).
    pose proof (build_tuple_files _ _ _ _ _ Hbuild) as Hfs.
    pose proof (λ σt, build_tuple_any_world cfg t σ2 σ3 σt _ Hbuild) as Hany.
    destruct b; simpl.
    + destruct Hfs as (w_min & w_max & s_min & s_max & c & Hb & Hfs).
      assert (∀ p, is_Some (files σ2 !! p) → is_Some (files σ3 !! p)) as Hgrow.
      { intros p Hp. rewrite Hfs. rewrite lookup_insert. by case_decide. }
      split_and!.
      * by apply sublist_inserts_r.
      * done.
      * intros t' [Hin|Hin%list_elem_of_singleton]%elem_of_app.
        -- destruct (Hdone t' Hin)
             as [?|(Hok & w1 & w2 & w3 & w4 & c' & Hb' & Hc')]; [by left|].
           right. split; [done|].
           destruct (Hgrow _ (mk_is_Some _ _ Hc')) as (c'' & Hc'').
           by exists w1, w2, w3, w4, c''.
        -- subst t'. right. split; [done|].
           exists w_min, w_max, s_min, s_max, c. split; [done|].
           by rewrite Hfs, lookup_insert_eq.
      * auto.
    + split_and!.
      * by apply sublist_app.
      * intros t' [Hin|Hin%list_elem_of_singleton]%elem_of_app; [auto|].
        by subst t'.
      * intros t' [Hin|Hin%list_elem_of_singleton]%elem_of_app.
        -- destruct (Hdone t' Hin) as [?|Hok].
           ++ left. apply elem_of_app. by left.
           ++ right. by rewrite Hfs.
        -- left. apply elem_of_app. right. by apply list_elem_of_singleton.
      * intros p Hp. rewrite Hfs. auto.
Qed.

Lemma sweep_accounts_for_every_tuple_witness :
  generate_instances (G:=LCG) three_cfg start_world
    = (inr three_stats, (generate_instances (G:=LCG) three_cfg start_world).2) ∧
  (stat_failed_instances three_stats `sublist_of` combinations three_cfg ∧
   (∀ t, t ∈ stat_failed_instances three_stats →
      ∀ σt : @world LCG, (build_tuple three_cfg t σt).1 = inr false) ∧
   (∀ t, t ∈ combinations three_cfg →
      t ∈ stat_failed_instances three_stats ∨
      (∀ σt : @world LCG, (build_tuple three_cfg t σt).1 = inr true) ∧
      ∃ w_min w_max s_min s_max content,
        derive_bounds (ft_d t) (ft_v1 t) (ft_v2 t) (ft_s1 t) (ft_s2 t)
          = inr (w_min, w_max, s_min, s_max) ∧
        files (generate_instances (G:=LCG) three_cfg start_world).2
          !! (output_directory three_cfg,
              _generate_filename (ft_d t) (ft_n t) (ft_m t)
                w_min w_max s_min s_max (ft_f t) (ft_seed t))
          = Some content) ∧
   (∀ p, is_Some (files start_world !! p) →
      is_Some (files (generate_instances (G:=LCG) three_cfg start_world).2
                 !! p))).
Proof.
  assert (generate_instances (G:=LCG) three_cfg start_world
    = (inr three_stats, (generate_instances (G:=LCG) three_cfg start_world).2))
    as Hrun by (apply run_pair; vm_compute; reflexivity).
  split; [exact Hrun|].
  exact (sweep_accounts_for_every_tuple _ _ _ _ Hrun).
Defined.

(** * When the builder raises *)

Section seedless_facts.
Context {G : RandomSource}.

Lemma seedless_ret {A} (a : A) : seedless (mret a).
Proof. intros σ. exists []. by rewrite app_nil_r. Qed.

Lemma seedless_raise {A} (e : exn) : seedless (raise (A:=A) e).
Proof. intros σ. exists []. by rewrite app_nil_r. Qed.

Lemma seedless_lift {A} (r : exn + A) : seedless (lift r).
Proof. intros σ. exists []. by rewrite app_nil_r. Qed.

Lemma seedless_bind {A B} (c : M A) (k : A → M B) :
  seedless c → (∀ a, seedless (k a)) → seedless (c ≫= k).
Proof.
  intros Hc Hk σ. rewrite bind_run. destruct (Hc σ) as (tr1 & Htr1 & Hs1).
  destruct (c σ) as [[e|a] σ1]; [by exists tr1|]. simpl in Htr1.
  destruct (Hk a σ1) as (tr2 & Htr2 & Hs2). exists (tr1 ++ tr2).
  by rewrite Htr2, Htr1, <- app_assoc, seeds_of_app, Hs1, Hs2.
Qed.

Lemma seedless_foldM {A B} (f : B → A → M B) l b :
  (∀ b a, seedless (f b a)) → seedless (foldM f b l).
Proof.
  intros Hf. revert b. induction l as [|a l IH]; intros b; simpl.
  - apply seedless_ret.
  - apply seedless_bind; auto.
Qed.

Lemma seedless_randint a b : seedless (randint a b).
Proof.
  intros σ. unfold randint. case_decide.
  - exists []. by rewrite app_nil_r.
  - destruct (rng_randint a b (rng σ)) as [v s']. by exists [EvRandint a b v].
Qed.

Lemma seedless_dict_getM {V} (dc : dict V) k : seedless (dict_getM dc k).
Proof.
  unfold dict_getM. destruct (dict_get dc k);
    [apply seedless_ret | apply seedless_raise].
Qed.

Create HintDb seedless discriminated.
#[local] Hint Resolve seedless_ret seedless_raise seedless_lift
  seedless_randint seedless_dict_getM : seedless.
#[local] Hint Extern 2 (seedless (_ ≫= _)) =>
  apply seedless_bind; [| intros ?] : seedless.
#[local] Hint Extern 2 (seedless (foldM _ _ _)) =>
  apply seedless_foldM; intros ? ? : seedless.

Lemma seedless_min_class_size m cls : seedless (min_class_size m cls).
Proof. unfold min_class_size. auto 10 with seedless. Qed.


(** ** Passes that return *)

Lemma assign_items_total (n m w_min w_max : Z) classes0 (σ : world) :
  0 < m → (0 < n → w_min ≤ w_max) → dict_keys classes0 = range m →
  ∃ cls σ',
    foldM (λ (classes : dict (list Z)) (_ : Z),
        class_id ← randint 0 (m - 1);
        item_weight ← randint w_min w_max;
        ws ← dict_getM classes class_id;
        mret (dict_set classes class_id (ws ++ [item_weight])))
      classes0 (range n) σ = (inr cls, σ') ∧
    dict_keys cls = range m.
Proof.
  intros Hm Hw Hkeys. destruct (decide (0 < n)) as [Hn|Hn].
  - apply assign_items_ok; auto.
  - exists classes0, σ. unfold range at 1. by rewrite seqZ_nil by lia.
Qed.

Lemma draw_instance_total n m w_min w_max s_min s_max f sk (σ : world) :
  drawable n m w_min w_max s_min s_max →
  ∃ dr σ', draw_instance n m w_min w_max s_min s_max f sk σ = (inr dr, σ').
Proof.
  intros (Hm & Hw & Hs). unfold draw_instance.
  erewrite bind_ok by reflexivity.
  destruct (setup_costs_ok m f (random_seed sk σ).2) as ([sc bc] & σ2 & H2).
  erewrite bind_ok by exact H2.
  destruct (assign_items_total n m w_min w_max
              (dict_comp (λ _, []) (range m)) σ2)
    as (cls & σ3 & H3 & Hkeys); [done | done | apply dict_comp_keys |].
  erewrite bind_ok by exact H3.
  destruct (flatten_items_ok cls σ3) as (its & σ4 & H4).
  erewrite bind_ok by exact H4.
  destruct (draw_setups_ok s_min s_max (dict_comp (λ _, 0) (range m))
              (dict_keys cls) σ4 Hs) as (st & σ5 & H5).
  erewrite bind_ok by exact H5.
  by eexists _, _.
Qed.

(** With drawable parameters the retry loop returns, whatever the
    generator answers. *)
Lemma attempt_loop_total cfg d n m w_min w_max s_min s_max f seed remaining k
    (σ : world) :
  drawable n m w_min w_max s_min s_max →
  ∃ b σ', attempt_loop cfg d n m w_min w_max s_min s_max f seed remaining k σ
            = (inr b, σ').
Proof.
  intros Hv. revert k σ.
  induction remaining as [|r IH]; intros k σ; [by eexists _, _|].
  cbn [attempt_loop].
  destruct (draw_instance_total n m w_min w_max s_min s_max f (seed + k) σ Hv)
    as (dr & σ1 & Hdraw).
  rewrite (bind_ok _ _ _ _ _ Hdraw).
  apply draw_instance_inv in Hdraw as (costs & asg & sws & Hdr).
  destruct (min_class_size_ok m (classes dr) σ1) as (mn & Hmin);
    [by destruct Hv | by destruct Hdr |].
  rewrite (bind_ok _ _ _ _ _ Hmin). case_decide; [|apply IH].
  destruct (write_instance_file_ok cfg d n m w_min w_max s_min s_max f seed
              (bin_cost dr) (classes dr) (setup_costs dr) (setups dr)
              (items dr) σ1) as (σ2 & Hw); [by destruct Hdr..|].
  rewrite (bind_ok _ _ _ _ _ Hw). by eexists _, _.
Qed.

(** A pass that reaches the end of the acceptance test had drawable
    parameters. *)
Lemma pass_returns_drawable n m w_min w_max s_min s_max f sk
    (σ σ1 σ2 : world) dr mn :
  draw_instance n m w_min w_max s_min s_max f sk σ = (inr dr, σ1) →
  min_class_size m (classes dr) σ1 = (inr mn, σ2) →
  drawable n m w_min w_max s_min s_max.
Proof.
  intros Hdraw Hmin.
  apply draw_instance_inv in Hdraw as (costs & asg & sws & Hdr).
  assert (0 < m) as Hm.
  { destruct (decide (0 < m)) as [|Hm]; [done|]. exfalso.
    unfold min_class_size, range in Hmin.
    rewrite seqZ_nil in Hmin by lia. done. }
  split_and!; [done | |].
  - intros Hn. destruct asg as [|p asg].
    + pose proof (df_asg_len _ _ _ _ _ _ _ _ _ _ _ _ _ _ Hdr) as Hlen.
      simpl in Hlen. lia.
    + pose proof (df_asg_range _ _ _ _ _ _ _ _ _ _ _ _ _ _ Hdr) as Hr.
      apply Forall_cons in Hr as [[_ ?] _]. lia.
  - destruct (df_setups _ _ _ _ _ _ _ _ _ _ _ _ _ _ Hdr 0) as (v & _ & ?).
    + apply elem_of_range. lia.
    + lia.
Qed.

(** ** Passes that raise *)





(** The retry loop returns exactly with drawable parameters. *)
Lemma attempt_loop_returns_iff cfg d n m w_min w_max s_min s_max f seed r k
    (σ : world) :
  (∃ b σ', attempt_loop cfg d n m w_min w_max s_min s_max f seed (S r) k σ
             = (inr b, σ'))
  ↔ drawable n m w_min w_max s_min s_max.
Proof.
  split; [|apply attempt_loop_total].
  intros (b & σ' & Hrun). cbn [attempt_loop] in Hrun.
  apply bind_ok_inv in Hrun as (dr & σ1 & Hdraw & Hrun).
  apply bind_ok_inv in Hrun as (mn & σ2 & Hmin & _).
  by eapply pass_returns_drawable.
Qed.
End seedless_facts.





Section sweep_raise_facts.
Context {G : RandomSource}.

(** The builder call of a tuple returns exactly on the valid tuples. *)
Lemma build_tuple_returns_iff cfg t (σ : world) :
  (∃ b σ', build_tuple cfg t σ = (inr b, σ')) ↔ valid_tuple t.
Proof.
  unfold build_tuple, valid_tuple, _generate_single_instance.
  assert (∃ r, Z.to_nat max_attempts = S r) as [r ->] by (by exists 999%nat).
  rewrite bind_run. unfold lift.
  destruct (derive_bounds _ _ _ _ _)
    as [e|[[[w_min w_max] s_min] s_max]] eqn:Hb.
  - split; [by intros (b & σ' & ?) | done].
  - apply attempt_loop_returns_iff.
Qed.


Lemma sweep_body_returns_iff cfg acc t (σ : world) :
  (∃ acc1 σ', sweep_body cfg acc t σ = (inr acc1, σ')) ↔ valid_tuple t.
Proof.
  rewrite <- (build_tuple_returns_iff cfg t σ). split.
  - intros (acc1 & σ' & Hrun).
    apply sweep_body_cases in Hrun as (b & Hbuild & _). eauto.
  - intros (b & σ' & Hbuild). unfold sweep_body.
    unfold build_tuple in Hbuild. rewrite (bind_ok _ _ _ _ _ Hbuild).
    destruct b; [|by eexists _, _].
    pose proof Hbuild as Hinv.
    apply generate_single_instance_inv in Hinv
      as (w_min & w_max & s_min & s_max & dr & asg & Hb & _).
    erewrite bind_ok by (unfold lift; by rewrite Hb). by eexists _, _.
Qed.

Lemma sweep_tuples_total cfg l acc (σ : world) :
  Forall valid_tuple l →
  ∃ acc1 σ', foldM (sweep_body cfg) acc l σ = (inr acc1, σ').
Proof.
  intros Hl.
  destruct (foldM_ok (sweep_body cfg) (λ _ _, True) l acc σ)
    as (acc1 & σ' & Hrun & _); [done | | by eauto].
  intros t acc0 σ0 Ht _.
  destruct (proj2 (sweep_body_returns_iff cfg acc0 t σ0)) as (acc1 & σ1 & H).
  - by eapply Forall_forall in Hl.
  - by exists acc1, σ1.
Qed.
End sweep_raise_facts.




Lemma default_config_valid :
  Forall valid_tuple (combinations create_default_config).
Proof. refine (bool_decide_unpack _ _). vm_compute. exact I. Qed.

(** X14: with the configuration built by [create_default_config] the
    nested loops of the sweep run to the end whatever the generator
    answers: each of the 480 combinations is valid, so none makes the
    builder raise, and all 480 are attempted. *)
Theorem default_config_sweep_completes {G : RandomSource} (σ : world) :
  ∃ acc σ',
    sweep create_default_config (Counters 0 0 []) σ = (inr acc, σ') ∧
    total_instances acc = 480 ∧
    successful_instances acc + Z.of_nat (length (failed_instances acc)) = 480.
Proof.
  destruct (sweep_tuples_total create_default_config
              (combinations create_default_config) (Counters 0 0 []) σ
              default_config_valid) as (acc & σ' & Hrun).
  exists acc, σ'. rewrite sweep_flat. split; [done|].
  apply sweep_counts in Hrun as [-> ->]. by rewrite default_combinations.
Qed.
